(** * stackset-controller: the core reconciliation engine

    A shallow embedding of [pkg/core/stackset.go] (the StackSetContainer
    operations: [NewStack], [MarkExpiredStacks], [GenerateIngress]) and of
    the StackContainer resource generators of the same package
    ([GenerateDeployment], [GenerateHPA], [GenerateService],
    [GenerateIngress]), followed by the properties of the specification
    that concern them. The two [GenerateIngress] methods are
    [GenerateStackSetIngress] and [GenerateStackIngress] here.

    Conventions.
    - Go's [int32]/[int64]/[int] values are integers of [Z]; the code only
      compares, copies and subtracts lengths, so no wrap-around arises.
    - [float64] traffic weights are primitive IEEE-754 binary64 floats.
    - Times are instants on a line, as [Z].
    - A Go map that may be [nil] is an [option (gmap string string)];
      reading or ranging over [nil] behaves as the empty map ([entries]).
    - A pointer that may be [nil] is an [option].
    - A Go result pair (pointer to T, error) is a [result (option T)]:
      [(nil, nil)] is [Ok None], [(x, nil)] is [Ok (Some x)] and
      [(nil, err)] is [Err err].
    - Code that mutates an object it was handed returns the object's new
      state next to its result (explicit state passing). *)

From Stdlib Require Import PrimInt63 PrimFloat ZArith Sorting.Sorted.
From Stdlib Require OrderedTypeEx.
From stdpp Require Import gmap strings list fin_maps pretty sorting.

Local Open Scope Z_scope.

(** ** Go values *)

Abbreviation gomap := (option (gmap string string)).

(** Reading, or ranging over, a possibly-nil map. *)
Definition entries (m : gomap) : gmap string string := default ∅ m.

Inductive error : Type :=
  | errNoPaths
  | errNoStacks
  | errNoMatchingPort (backendPort : string)
  | errCollaborator (msg : string).

Inductive result (A : Type) : Type :=
  | Ok (a : A)
  | Err (e : error).
Arguments Ok {A} a.
Arguments Err {A} e.

(** What a call leaves behind: it returned, or it panicked part-way. *)
Inductive outcome : Type := Returned | Panicked.

(** The answer of a collaborator that can fail: a value, or the message of
    the error it returns. *)
Inductive reply (A : Type) : Type :=
  | Reply (a : A)
  | Refused (msg : string).
Arguments Reply {A} a.
Arguments Refused {A} msg.

(** ** Kubernetes API objects (the fields the core reads or writes) *)

(** [intstr.IntOrString]: a tagged union of an [int32] and a string. *)
Inductive IntOrString : Type :=
  | FromInt (IntVal : Z)
  | FromString (StrVal : string).

(** [IntOrString.String]: the string itself, or the integer in decimal. *)
Definition IntOrString_String (p : IntOrString) : string :=
  match p with
  | FromInt i => pretty i
  | FromString s => s
  end.

Definition ProtocolTCP : string := "TCP".
Definition ServiceTypeClusterIP : string := "ClusterIP".

Record OwnerReference := {
  or_APIVersion : string;
  or_Kind : string;
  or_Name : string;
  or_UID : string
}.

Record ObjectMeta := {
  Name : string;
  Namespace : string;
  UID : string;
  Generation : Z;
  CreationTimestamp : Z;
  Labels : gomap;
  Annotations : gomap;
  OwnerReferences : list OwnerReference
}.

Definition emptyMeta : ObjectMeta :=
  {| Name := ""; Namespace := ""; UID := ""; Generation := 0;
     CreationTimestamp := 0; Labels := None; Annotations := None;
     OwnerReferences := [] |}.

Record ServicePort := {
  sp_Name : string;
  sp_Protocol : string;
  sp_Port : Z;
  sp_TargetPort : IntOrString;
  sp_NodePort : Z
}.

Record ContainerPort := {
  cp_Name : string;
  cp_HostPort : Z;
  cp_ContainerPort : Z;
  cp_Protocol : string;
  cp_HostIP : string
}.

Record Container := {
  c_Name : string;
  c_Image : string;
  c_Ports : list ContainerPort
}.

Record PodTemplateSpec := {
  pt_Meta : ObjectMeta;
  pt_Containers : list Container
}.

(** ** The zalando.org/v1 domain objects *)

(** The orchestrator's metric shapes pass through the core untouched: it
    never looks inside one. *)
Record MetricSpec := { metricSpec : string }.
Record AutoscalerMetrics := { autoscalerMetrics : string }.

Record Autoscaler := {
  as_MinReplicas : option Z;
  as_MaxReplicas : Z;
  as_Metrics : list AutoscalerMetrics
}.

Record HorizontalPodAutoscaler := {
  hpa_Meta : ObjectMeta;
  hpa_MinReplicas : option Z;
  hpa_MaxReplicas : Z;
  hpa_Metrics : list MetricSpec
}.

Record StackServiceSpec := {
  svc_Meta : ObjectMeta;
  svc_Ports : list ServicePort
}.

Record StackSpec := {
  Replicas : option Z;
  StackHPA : option HorizontalPodAutoscaler;
  Service : option StackServiceSpec;
  PodTemplate : PodTemplateSpec;
  StackAutoscaler : option Autoscaler
}.

Record StackSpecTemplate := {
  tpl_StackSpec : StackSpec;
  Version : string
}.

Record StackTemplate := {
  tpl_Meta : ObjectMeta;
  tpl_Spec : StackSpecTemplate
}.

Record StackSetIngressSpec := {
  ing_Meta : ObjectMeta;
  Hosts : list string;
  BackendPort : IntOrString;
  Path : string
}.

Record StackLifecycle := {
  ScaledownTTLSeconds : option Z;
  Limit : option Z
}.

Record StackSetSpec := {
  Ingress : option StackSetIngressSpec;
  Lifecycle : StackLifecycle;
  Template : StackTemplate
}.

Record StackSetStatus := {
  Stacks : Z;
  ReadyStacks : Z;
  StacksWithTraffic : Z;
  ObservedStackVersion : string
}.

Record StackSet := {
  ss_APIVersion : string;
  ss_Kind : string;
  ss_Meta : ObjectMeta;
  ss_Spec : StackSetSpec;
  ss_Status : StackSetStatus
}.

Record Stack := {
  st_Meta : ObjectMeta;
  st_Spec : StackSpec
}.

(** ** The working set *)

(** A Stack with its observed downstream facts. [scaledownTTLSeconds] is
    the StackSet's lifecycle setting as the container carries it
    ([ScaledDown] takes no argument). *)
Record StackContainer := {
  sc_Stack : Stack;
  PendingRemoval : bool;
  stacksetName : string;
  ingressSpec : option StackSetIngressSpec;
  scaledownTTLSeconds : Z;
  stackReplicas : Z;
  deploymentReplicas : Z;
  createdReplicas : Z;
  readyReplicas : Z;
  updatedReplicas : Z;
  desiredReplicas : Z;
  actualTrafficWeight : float;
  desiredTrafficWeight : float;
  noTrafficSince : option Z;
  prescalingActive : bool;
  prescalingReplicas : Z;
  prescalingDesiredTrafficWeight : float;
  prescalingLastTrafficIncrease : option Z
}.

(** [StackContainers] in the order in which a [range] over it visits
    them. *)
Record StackSetContainer := {
  ssc_StackSet : StackSet;
  StackContainers : list StackContainer
}.

(** ** Generated downstream objects *)

Record Deployment := {
  d_Meta : ObjectMeta;
  d_Replicas : option Z;
  d_MatchLabels : gmap string string;
  d_Template : PodTemplateSpec
}.

Record CrossVersionObjectReference := {
  ref_APIVersion : string;
  ref_Kind : string;
  ref_Name : string
}.

Record HPA := {
  h_Kind : string;
  h_APIVersion : string;
  h_Meta : ObjectMeta;
  h_ScaleTargetRef : CrossVersionObjectReference;
  h_MinReplicas : option Z;
  h_MaxReplicas : Z;
  h_Metrics : list MetricSpec
}.

Record K8sService := {
  s_Meta : ObjectMeta;
  s_Selector : gmap string string;
  s_Type : string;
  s_Ports : list ServicePort
}.

Record IngressBackend := {
  ServiceName : string;
  BackendServicePort : IntOrString
}.

Record HTTPIngressPath := {
  hp_Path : string;
  hp_Backend : IngressBackend
}.

Record IngressRule := {
  Host : string;
  Paths : list HTTPIngressPath
}.

Record K8sIngress := {
  i_Meta : ObjectMeta;
  i_Rules : list IngressRule
}.

(** ** Collaborators

    Code the core calls that lives outside the two files embedded here. *)

(** - [now]: the reading of the injected clock, in seconds.
    - [APIVersion], [KindStack]: the group/version and kind stamped on owner
      references to a Stack.
    - [mergeLabels]: merges label maps into a newly allocated map.
    - [sortSlice]: Go's [sort.Slice] with the given [less]; it is not stable.
    - [jsonMarshal]: [json.Marshal] on a map of weights.
    - [convertCustomMetrics]: translation of autoscaler metrics, with the
      annotations it emits.
    - [createSubdomain]: the per-stack host name. *)
Class Collaborators := {
  now : Z;
  APIVersion : string;
  KindStack : string;
  mergeLabels : list gomap → gmap string string;
  sortSlice : ∀ A : Type, (A → A → bool) → list A → list A;
  jsonMarshal : gmap string float → reply string;
  convertCustomMetrics :
    string → string → list AutoscalerMetrics →
    reply (list MetricSpec * gomap);
  createSubdomain : string → string → reply string
}.
Arguments sortSlice {_ A} less l.

(** [less] is a strict weak ordering, as [sort.Slice] asks of it. *)
Record StrictWeakOrder {A : Type} (less : A → A → bool) : Prop := {
  swo_irrefl : ∀ a, less a a = false;
  swo_trans : ∀ a b c, less a b = true → less b c = true → less a c = true;
  swo_incomp : ∀ a b c,
    less a b = false → less b a = false →
    less b c = false → less c b = false →
    less a c = false ∧ less c a = false
}.

(** A slice is in order for [less] when no later element is less than an
    earlier one. *)
Definition InOrder {A : Type} (less : A → A → bool) (l : list A) : Prop :=
  StronglySorted (λ a b, less b a = false) l.

(** What [sort.Slice] guarantees: the same elements, in order. *)
Class SortSliceContract `{Collaborators} : Prop := {
  sortSlice_perm : ∀ (A : Type) (less : A → A → bool) (l : list A),
    sortSlice less l ≡ₚ l;
  sortSlice_ordered : ∀ (A : Type) (less : A → A → bool) (l : list A),
    StrictWeakOrder less → InOrder less (sortSlice less l)
}.

Section Core.
Context `{Collaborators}.

(** ** Constants and helpers declared outside the embedded files *)

(** Modelled from the spec: the constant [defaultVersion] is declared outside
    the embedded files; the template version falls back to "01". *)
Definition defaultVersion : string := "01".

(** Modelled from the spec: the constant [defaultStackLifecycleLimit] is
    declared outside the embedded files; the retention count defaults to 10. *)
Definition defaultStackLifecycleLimit : Z := 10.

(** Modelled from the spec: the annotation keys are declared outside the
    embedded files; the external-interfaces section gives their values. *)
Definition backendWeightsAnnotationKey : string := "zalando.org/backend-weights".
Definition stackTrafficWeightsAnnotationKey : string :=
  "zalando.org/stack-traffic-weights".
Definition stackGenerationAnnotationKey : string :=
  "stackset-controller.zalando.org/stack-generation".

(** Modelled from the spec: [StackContainer.Name] and [Namespace] are
    declared outside the embedded files; a Stack's identity is its
    (namespace, name). *)
Definition scName (sc : StackContainer) : string := Name (st_Meta (sc_Stack sc)).
Definition scNamespace (sc : StackContainer) : string :=
  Namespace (st_Meta (sc_Stack sc)).

(** Go's [w > 0] on a [float64]: false on a NaN. *)
Definition positive (w : float) : bool := PrimFloat.ltb PrimFloat.zero w.

(** Modelled from the spec: [HasTraffic] is declared outside the embedded
    files; actualTrafficWeight > 0 OR desiredTrafficWeight > 0. *)
Definition HasTraffic (sc : StackContainer) : bool :=
  positive (actualTrafficWeight sc) || positive (desiredTrafficWeight sc).

(** Modelled from the spec: [IsAutoscaled] is declared outside the embedded
    files; the Stack spec has either autoscaler or horizontalPodAutoscaler. *)
Definition IsAutoscaled (sc : StackContainer) : bool :=
  bool_decide (is_Some (StackAutoscaler (st_Spec (sc_Stack sc)))) ||
  bool_decide (is_Some (StackHPA (st_Spec (sc_Stack sc)))).

(** Modelled from the spec: [ScaledDown] is declared outside the embedded
    files; !HasTraffic AND noTrafficSince != nil AND
    now - noTrafficSince >= scaledownTTLSeconds. *)
Definition ScaledDown (sc : StackContainer) : bool :=
  negb (HasTraffic sc) &&
  match noTrafficSince sc with
  | None => false
  | Some since => bool_decide (scaledownTTLSeconds sc ≤ now - since)
  end.

(** Modelled from the spec: [stackByName] is declared outside the embedded
    files; the Stack of that name in the working set, if one exists. *)
Definition stackByName (ssc : StackSetContainer) (name : string)
  : option StackContainer :=
  find (λ sc, String.eqb (scName sc) name) (StackContainers ssc).

(** Modelled from the spec: [wrapReplicas] is declared outside the embedded
    files; a written replica count, as opposed to an unset one. *)
Definition wrapReplicas (replicas : Z) : option Z := Some replicas.

(** ** [pkg/core/stackset.go] *)

Definition StacksetHeritageLabelKey : string := "stackset".
Definition StackVersionLabelKey : string := "stack-version".

Definition currentStackVersion (stackset : StackSet) : string :=
  let version := Version (tpl_Spec (Template (ss_Spec stackset))) in
  if decide (version = "") then defaultVersion else version.

Definition generateStackName (stackset : StackSet) (version : string) : string :=
  Name (ss_Meta stackset) +:+ "-" +:+ version.

(** The body of the loop of [sanitizeServicePorts]: the port read at index
    [i], with the default protocol set if not specified. *)
Definition sanitizePort (port : ServicePort) : ServicePort :=
  if decide (sp_Protocol port = "")
  then {| sp_Name := sp_Name port; sp_Protocol := ProtocolTCP;
          sp_Port := sp_Port port; sp_TargetPort := sp_TargetPort port;
          sp_NodePort := sp_NodePort port |}
  else port.

(** Iterations [i], [i+1], ... of [for i, port := range service.Ports], [n]
    of them left; each stores the port back at its index in the slice. *)
Fixpoint sanitizeLoop (n : nat) (i : nat) (ports : list ServicePort)
  : list ServicePort :=
  match n with
  | O => ports
  | S n' =>
      match ports !! i with
      | Some port => sanitizeLoop n' (S i) (<[i := sanitizePort port]> ports)
      | None => ports
      end
  end.

(** [sanitizeServicePorts] writes through the pointer it is given: the
    value returned is also the new state of the object passed in. *)
Definition sanitizeServicePorts (service : StackServiceSpec) : StackServiceSpec :=
  {| svc_Meta := svc_Meta service;
     svc_Ports := sanitizeLoop (length (svc_Ports service)) 0 (svc_Ports service) |}.

(** The StackSet after a write through [stackset.Spec.StackTemplate.Spec.Service]. *)
Definition storeTemplateService (stackset : StackSet)
    (service : option StackServiceSpec) : StackSet :=
  let spec := ss_Spec stackset in
  let template := Template spec in
  let tspec := tpl_Spec template in
  let sspec := tpl_StackSpec tspec in
  {| ss_APIVersion := ss_APIVersion stackset;
     ss_Kind := ss_Kind stackset;
     ss_Meta := ss_Meta stackset;
     ss_Status := ss_Status stackset;
     ss_Spec :=
       {| Ingress := Ingress spec;
          Lifecycle := Lifecycle spec;
          Template :=
            {| tpl_Meta := tpl_Meta template;
               tpl_Spec :=
                 {| Version := Version tspec;
                    tpl_StackSpec :=
                      {| Replicas := Replicas sspec;
                         StackHPA := StackHPA sspec;
                         Service := service;
                         PodTemplate := PodTemplate sspec;
                         StackAutoscaler := StackAutoscaler sspec |} |} |} |} |}.

(** A [StackContainer] literal that sets only [Stack]: every other field
    has its zero value. *)
Definition containerOf (stack : Stack) : StackContainer :=
  {| sc_Stack := stack; PendingRemoval := false; stacksetName := "";
     ingressSpec := None; scaledownTTLSeconds := 0; stackReplicas := 0;
     deploymentReplicas := 0; createdReplicas := 0; readyReplicas := 0;
     updatedReplicas := 0; desiredReplicas := 0;
     actualTrafficWeight := PrimFloat.zero;
     desiredTrafficWeight := PrimFloat.zero; noTrafficSince := None;
     prescalingActive := false; prescalingReplicas := 0;
     prescalingDesiredTrafficWeight := PrimFloat.zero;
     prescalingLastTrafficIncrease := None |}.

Definition ownerOfStackSet (stackset : StackSet) : OwnerReference :=
  {| or_APIVersion := ss_APIVersion stackset; or_Kind := ss_Kind stackset;
     or_Name := Name (ss_Meta stackset); or_UID := UID (ss_Meta stackset) |}.

(** [NewStack] returns an (optional) stack that should be created, and the
    version; the third component is the working set as the call leaves it. *)
Definition NewStack (ssc : StackSetContainer)
  : option StackContainer * string * StackSetContainer :=
  let stackset := ssc_StackSet ssc in
  let observedStackVersion := ObservedStackVersion (ss_Status stackset) in
  let stackVersion := currentStackVersion stackset in
  let stackName := generateStackName stackset stackVersion in
  let stack := stackByName ssc stackName in
  if bool_decide (stack = None ∧ observedStackVersion ≠ stackVersion) then
    let template := Template (ss_Spec stackset) in
    let tspec := tpl_StackSpec (tpl_Spec template) in
    let service :=
      match Service tspec with
      | Some svc => Some (sanitizeServicePorts svc)
      | None => None
      end in
    (Some (containerOf
       {| st_Meta :=
            {| Name := stackName;
               Namespace := Namespace (ss_Meta stackset);
               OwnerReferences := [ownerOfStackSet stackset];
               Labels := Some (mergeLabels
                 [Some {[StacksetHeritageLabelKey := Name (ss_Meta stackset)]};
                  Labels (ss_Meta stackset);
                  Some {[StackVersionLabelKey := stackVersion]}]);
               Annotations := Annotations (tpl_Meta template);
               UID := ""; Generation := 0; CreationTimestamp := 0 |};
          st_Spec :=
            {| Replicas := Replicas tspec;
               StackHPA := StackHPA tspec;
               Service := service;
               PodTemplate := PodTemplate tspec;
               StackAutoscaler := StackAutoscaler tspec |} |}),
     stackVersion,
     {| ssc_StackSet := storeTemplateService stackset service;
        StackContainers := StackContainers ssc |})
  else (None, "", ssc).

(** [sc.PendingRemoval = true]. *)
Definition markPending (sc : StackContainer) : StackContainer :=
  {| sc_Stack := sc_Stack sc; PendingRemoval := true;
     stacksetName := stacksetName sc; ingressSpec := ingressSpec sc;
     scaledownTTLSeconds := scaledownTTLSeconds sc;
     stackReplicas := stackReplicas sc;
     deploymentReplicas := deploymentReplicas sc;
     createdReplicas := createdReplicas sc; readyReplicas := readyReplicas sc;
     updatedReplicas := updatedReplicas sc;
     desiredReplicas := desiredReplicas sc;
     actualTrafficWeight := actualTrafficWeight sc;
     desiredTrafficWeight := desiredTrafficWeight sc;
     noTrafficSince := noTrafficSince sc;
     prescalingActive := prescalingActive sc;
     prescalingReplicas := prescalingReplicas sc;
     prescalingDesiredTrafficWeight := prescalingDesiredTrafficWeight sc;
     prescalingLastTrafficIncrease := prescalingLastTrafficIncrease sc |}.

(** The condition under which [MarkExpiredStacks] considers a stack for
    cleanup. *)
Definition gcCandidate (sc : StackContainer) : bool :=
  bool_decide (ingressSpec sc = None) || ScaledDown sc.

(** A [*StackContainer] of the working set: the position it points at,
    with the container found there. *)
Definition pointers (scs : list StackContainer) : list (nat * StackContainer) :=
  imap (λ i sc, (i, sc)) scs.

(** The comparison handed to [sort.Slice] in [MarkExpiredStacks]. *)
Definition olderThan (a b : nat * StackContainer) : bool :=
  CreationTimestamp (st_Meta (sc_Stack a.2)) <?
  CreationTimestamp (st_Meta (sc_Stack b.2)).

(** The working set after [sc.PendingRemoval = true] through each of the
    pointers [marked]. *)
Definition markAll (marked : list nat) (scs : list StackContainer)
  : list StackContainer :=
  imap (λ i sc, if bool_decide (i ∈ marked) then markPending sc else sc) scs.

(** [MarkExpiredStacks] marks stacks that should be deleted. The slice
    [gcCandidates] has capacity [len(ssc.StackContainers)]: reslicing it
    beyond that panics at once, and reslicing it beyond its length (within
    the capacity) exposes nil pointers, on the first of which the marking
    loop panics after it has marked every candidate. *)
Definition MarkExpiredStacks (ssc : StackSetContainer)
  : outcome * StackSetContainer :=
  let historyLimit :=
    match Limit (Lifecycle (ss_Spec (ssc_StackSet ssc))) with
    | Some limit => limit
    | None => defaultStackLifecycleLimit
    end in
  let gcCandidates :=
    filter (λ p, gcCandidate p.2) (pointers (StackContainers ssc)) in
  if bool_decide (Z.of_nat (length gcCandidates) ≤ historyLimit) then
    (Returned, ssc)
  else
    let sorted := sortSlice olderThan gcCandidates in
    let excessStacks := Z.of_nat (length gcCandidates) - historyLimit in
    if bool_decide (excessStacks ≤ Z.of_nat (length (StackContainers ssc))) then
      let marked := (take (Z.to_nat excessStacks) sorted).*1 in
      (if bool_decide (excessStacks ≤ Z.of_nat (length gcCandidates))
       then Returned else Panicked,
       {| ssc_StackSet := ssc_StackSet ssc;
          StackContainers := markAll marked (StackContainers ssc) |})
    else (Panicked, ssc).

(** The traffic a pass of the loop of the shared [GenerateIngress] has
    gathered: the two weight maps and the paths appended so far. *)
Record gathered := {
  actualWeights : gmap string float;
  desiredWeights : gmap string float;
  gatheredPaths : list HTTPIngressPath
}.

(** One iteration of [for _, sc := range ssc.StackContainers]. *)
Definition gatherStack (ingress : StackSetIngressSpec) (g : gathered)
    (sc : StackContainer) : gathered :=
  let g1 :=
    if positive (actualTrafficWeight sc) then
      {| actualWeights := <[scName sc := actualTrafficWeight sc]> (actualWeights g);
         desiredWeights := desiredWeights g;
         gatheredPaths := gatheredPaths g ++
           [{| hp_Path := Path ingress;
               hp_Backend := {| ServiceName := scName sc;
                                BackendServicePort := BackendPort ingress |} |}] |}
    else g in
  if positive (desiredTrafficWeight sc) then
    {| actualWeights := actualWeights g1;
       desiredWeights := <[scName sc := desiredTrafficWeight sc]> (desiredWeights g1);
       gatheredPaths := gatheredPaths g1 |}
  else g1.

(** The comparison handed to [sort.Slice] in the shared [GenerateIngress]. *)
Definition byServiceName (a b : HTTPIngressPath) : bool :=
  String.ltb (ServiceName (hp_Backend a)) (ServiceName (hp_Backend b)).

(** [StackSetContainer.GenerateIngress]: the shared ingress. *)
Definition GenerateStackSetIngress (ssc : StackSetContainer)
  : result (option K8sIngress) :=
  let stackset := ssc_StackSet ssc in
  match Ingress (ss_Spec stackset) with
  | None => Ok None
  | Some ingress =>
      let labels := mergeLabels
        [Some {[StacksetHeritageLabelKey := Name (ss_Meta stackset)]};
         Labels (ss_Meta stackset)] in
      let annotations := mergeLabels [Annotations (ing_Meta ingress)] in
      let g := foldl (gatherStack ingress)
        {| actualWeights := ∅; desiredWeights := ∅; gatheredPaths := [] |}
        (StackContainers ssc) in
      if bool_decide (length (gatheredPaths g) = 0%nat) then Err errNoPaths
      else
        let paths := sortSlice byServiceName (gatheredPaths g) in
        let rules :=
          (λ host, {| Host := host; Paths := paths |}) <$> Hosts ingress in
        match jsonMarshal (actualWeights g) with
        | Refused msg => Err (errCollaborator msg)
        | Reply actualWeightsData =>
            match jsonMarshal (desiredWeights g) with
            | Refused msg => Err (errCollaborator msg)
            | Reply desiredWeightData =>
                Ok (Some
                  {| i_Meta :=
                       {| Name := Name (ss_Meta stackset);
                          Namespace := Namespace (ss_Meta stackset);
                          Labels := Some labels;
                          Annotations := Some
                            (<[stackTrafficWeightsAnnotationKey := desiredWeightData]>
                               (<[backendWeightsAnnotationKey := actualWeightsData]>
                                  annotations));
                          OwnerReferences := [ownerOfStackSet stackset];
                          UID := ""; Generation := 0; CreationTimestamp := 0 |};
                     i_Rules := rules |})
            end
        end
  end.

(** ** The StackContainer resource generators *)

(** The set [selectorLabels]. *)
Definition selectorLabels : gset string :=
  {[StacksetHeritageLabelKey; StackVersionLabelKey]}.

Definition mapCopy (m : gmap string string) : gmap string string :=
  map_fold (λ k v newMap, <[k := v]> newMap) ∅ m.

(** [limitLabels] returns a limited set of labels based on the validKeys. *)
Definition limitLabels (labels : gmap string string) (validKeys : gset string)
  : gmap string string :=
  map_fold
    (λ k v newLabels,
       if bool_decide (k ∈ validKeys) then <[k := v]> newLabels else newLabels)
    ∅ labels.

(** [templateInjectLabels] injects labels into a pod template spec. It
    writes into the template it is handed; the value returned is that
    template's new state. *)
Definition templateInjectLabels (template : PodTemplateSpec)
    (labels : gmap string string) : PodTemplateSpec :=
  let own :=
    match Labels (pt_Meta template) with
    | None => ∅
    | Some l => l
    end in
  let injected :=
    map_fold
      (λ key value l,
         match l !! key with
         | Some _ => l
         | None => <[key := value]> l
         end)
      own labels in
  {| pt_Meta :=
       {| Name := Name (pt_Meta template);
          Namespace := Namespace (pt_Meta template);
          UID := UID (pt_Meta template);
          Generation := Generation (pt_Meta template);
          CreationTimestamp := CreationTimestamp (pt_Meta template);
          Labels := Some injected;
          Annotations := Annotations (pt_Meta template);
          OwnerReferences := OwnerReferences (pt_Meta template) |};
     pt_Containers := pt_Containers template |}.

(** [PodTemplateSpec.DeepCopy]: a new object with the same contents, which
    shares nothing with the one copied. *)
Definition DeepCopy (template : PodTemplateSpec) : PodTemplateSpec := template.

Definition resourceMeta (sc : StackContainer) : ObjectMeta :=
  let resourceLabels := mapCopy (entries (Labels (st_Meta (sc_Stack sc)))) in
  {| Name := scName sc;
     Namespace := scNamespace sc;
     Annotations := Some
       {[stackGenerationAnnotationKey := pretty (Generation (st_Meta (sc_Stack sc)))]};
     Labels := Some resourceLabels;
     OwnerReferences :=
       [{| or_APIVersion := APIVersion; or_Kind := KindStack;
           or_Name := scName sc; or_UID := UID (st_Meta (sc_Stack sc)) |}];
     UID := ""; Generation := 0; CreationTimestamp := 0 |}.

(** Whether a service port maps to the backend port. *)
Definition matchesBackendPort (backendPort : IntOrString) (port : ServicePort)
  : bool :=
  match backendPort with
  | FromInt IntVal => bool_decide (sp_Port port = IntVal)
  | FromString StrVal => bool_decide (sp_Name port = StrVal)
  end.

(** [servicePortsFromContainers] gets service ports from the containers of
    the pod template. *)
Definition servicePortsFromContainers (containers : list Container)
  : list ServicePort :=
  mjoin (imap
    (λ i container,
       imap
         (λ j port,
            let name :=
              if decide (cp_Name port = "")
              then "port-" +:+ pretty i +:+ "-" +:+ pretty j
              else cp_Name port in
            {| sp_Name := name;
               sp_Protocol :=
                 if decide (cp_Protocol port = "") then ProtocolTCP
                 else cp_Protocol port;
               sp_Port := cp_ContainerPort port;
               sp_TargetPort := FromInt (cp_ContainerPort port);
               sp_NodePort := 0 |})
         (c_Ports container))
    containers).

(** [getServicePorts] gets the service ports to be used for the stack
    service. *)
Definition getServicePorts (stackSpec : StackSpec)
    (backendPort : option IntOrString) : result (list ServicePort) :=
  let servicePorts :=
    match Service stackSpec with
    | None => servicePortsFromContainers (pt_Containers (PodTemplate stackSpec))
    | Some service =>
        if bool_decide (length (svc_Ports service) = 0%nat)
        then servicePortsFromContainers (pt_Containers (PodTemplate stackSpec))
        else svc_Ports service
    end in
  match backendPort with
  | Some port =>
      if existsb (matchesBackendPort port) servicePorts then Ok servicePorts
      else Err (errNoMatchingPort (IntOrString_String port))
  | None => Ok servicePorts
  end.

Definition GenerateDeployment (sc : StackContainer) : Deployment :=
  let stack := sc_Stack sc in
  let desiredReplicas :=
    if prescalingActive sc then prescalingReplicas sc else stackReplicas sc in
  let updatedReplicas :=
    if bool_decide (desiredReplicas ≠ 0) && negb (ScaledDown sc) then
      if bool_decide (deploymentReplicas sc = 0)
         || (negb (IsAutoscaled sc)
             && bool_decide (desiredReplicas ≠ deploymentReplicas sc))
      then wrapReplicas desiredReplicas
      else None
    else
      if bool_decide (deploymentReplicas sc ≠ 0) then wrapReplicas 0 else None in
  {| d_Meta := resourceMeta sc;
     d_Replicas := updatedReplicas;
     d_MatchLabels := limitLabels (entries (Labels (st_Meta stack))) selectorLabels;
     d_Template :=
       templateInjectLabels (DeepCopy (PodTemplate (st_Spec stack)))
         (entries (Labels (st_Meta stack))) |}.

(** The object [GenerateHPA] starts from, before the replica bounds and the
    metrics are filled in. *)
Definition hpaFor (sc : StackContainer) (annotations : gomap)
    (minReplicas : option Z) (maxReplicas : Z) (metrics : list MetricSpec)
  : HPA :=
  let meta := resourceMeta sc in
  {| h_Kind := "HorizontalPodAutoscaler";
     h_APIVersion := "autoscaling/v2beta1";
     h_Meta :=
       {| Name := Name meta; Namespace := Namespace meta; UID := UID meta;
          Generation := Generation meta;
          CreationTimestamp := CreationTimestamp meta;
          Labels := Labels meta; Annotations := annotations;
          OwnerReferences := OwnerReferences meta |};
     h_ScaleTargetRef :=
       {| ref_APIVersion := "apps/v1"; ref_Kind := "Deployment";
          ref_Name := scName sc |};
     h_MinReplicas := minReplicas;
     h_MaxReplicas := maxReplicas;
     h_Metrics := metrics |}.

(** The last step of [GenerateHPA]: if prescaling is enabled, ensure we have
    at least [prescalingReplicas] pods. *)
Definition prescaledMinReplicas (sc : StackContainer) (minReplicas : option Z)
  : option Z :=
  if prescalingActive sc
     && match minReplicas with
        | None => true
        | Some m => bool_decide (m < prescalingReplicas sc)
        end
  then Some (prescalingReplicas sc)
  else minReplicas.

Definition GenerateHPA (sc : StackContainer) : result (option HPA) :=
  let autoscalerSpec := StackAutoscaler (st_Spec (sc_Stack sc)) in
  let hpaSpec := StackHPA (st_Spec (sc_Stack sc)) in
  match autoscalerSpec, hpaSpec with
  | None, None => Ok None
  | Some autoscaler, _ =>
      match convertCustomMetrics (stacksetName sc) (scName sc)
              (as_Metrics autoscaler) with
      | Refused msg => Err (errCollaborator msg)
      | Reply (metrics, annotations) =>
          Ok (Some (hpaFor sc
            (Some (mergeLabels [Annotations (resourceMeta sc); annotations]))
            (prescaledMinReplicas sc (as_MinReplicas autoscaler))
            (as_MaxReplicas autoscaler) metrics))
      end
  | None, Some hpa =>
      Ok (Some (hpaFor sc (Annotations (resourceMeta sc))
        (prescaledMinReplicas sc (hpa_MinReplicas hpa))
        (hpa_MaxReplicas hpa) (hpa_Metrics hpa)))
  end.

Definition GenerateService (sc : StackContainer) : result (option K8sService) :=
  let backendPort :=
    match ingressSpec sc with
    | Some ingress => Some (BackendPort ingress)
    | None => None
    end in
  match getServicePorts (st_Spec (sc_Stack sc)) backendPort with
  | Err err => Err err
  | Ok servicePorts =>
      Ok (Some
        {| s_Meta := resourceMeta sc;
           s_Selector :=
             limitLabels (entries (Labels (st_Meta (sc_Stack sc)))) selectorLabels;
           s_Type := ServiceTypeClusterIP;
           s_Ports := servicePorts |})
  end.

(** The loop of the per-stack [GenerateIngress] that creates a rule per
    hostname; it stops at the first host [createSubdomain] refuses. *)
Fixpoint stackRules (name : string) (paths : list HTTPIngressPath)
    (hosts : list string) (rules : list IngressRule)
  : result (list IngressRule) :=
  match hosts with
  | [] => Ok rules
  | host :: hosts' =>
      match createSubdomain host name with
      | Refused msg => Err (errCollaborator msg)
      | Reply newHost =>
          stackRules name paths hosts'
            (rules ++ [{| Host := newHost; Paths := paths |}])
      end
  end.

(** [StackContainer.GenerateIngress]: the per-stack ingress. *)
Definition GenerateStackIngress (sc : StackContainer)
  : result (option K8sIngress) :=
  match ingressSpec sc with
  | None => Ok None
  | Some ingress =>
      let meta := resourceMeta sc in
      let annotations :=
        mergeLabels [Annotations meta; Annotations (ing_Meta ingress)] in
      let path :=
        {| hp_Path := Path ingress;
           hp_Backend := {| ServiceName := scName sc;
                            BackendServicePort := BackendPort ingress |} |} in
      match stackRules (scName sc) [path] (Hosts ingress) [] with
      | Err err => Err err
      | Ok rules =>
          Ok (Some
            {| i_Meta :=
                 {| Name := Name meta; Namespace := Namespace meta;
                    UID := UID meta; Generation := Generation meta;
                    CreationTimestamp := CreationTimestamp meta;
                    Labels := Labels meta; Annotations := Some annotations;
                    OwnerReferences := OwnerReferences meta |};
               i_Rules := rules |})
      end
  end.

(** ** [GenerateStackSetStatus]: the status aggregator of [pkg/core/stackset.go] *)

(** A Go [int32] after an arithmetic step: the value wrapped around into
    [-2^31, 2^31). *)
Definition int32 (x : Z) : Z := (x + 2 ^ 31) `mod` 2 ^ 32 - 2 ^ 31.

(** Modelled from the spec: [IsReady] is declared outside the embedded
    files; deploymentReplicas == readyReplicas == updatedReplicas AND
    deploymentReplicas >= 1. *)
Definition IsReady (sc : StackContainer) : bool :=
  bool_decide (deploymentReplicas sc = readyReplicas sc)
  && bool_decide (deploymentReplicas sc = updatedReplicas sc)
  && bool_decide (1 ≤ deploymentReplicas sc).

(** One iteration of the loop of [GenerateStackSetStatus]; the counters
    are [int32]. *)
Definition countStack (result : StackSetStatus) (sc : StackContainer)
  : StackSetStatus :=
  if PendingRemoval sc then result
  else
    let counted :=
      {| Stacks := int32 (Stacks result + 1);
         ReadyStacks := ReadyStacks result;
         StacksWithTraffic := StacksWithTraffic result;
         ObservedStackVersion := ObservedStackVersion result |} in
    let withTraffic :=
      if HasTraffic sc then
        {| Stacks := Stacks counted;
           ReadyStacks := ReadyStacks counted;
           StacksWithTraffic := int32 (StacksWithTraffic counted + 1);
           ObservedStackVersion := ObservedStackVersion counted |}
      else counted in
    if IsReady sc then
      {| Stacks := Stacks withTraffic;
         ReadyStacks := int32 (ReadyStacks withTraffic + 1);
         StacksWithTraffic := StacksWithTraffic withTraffic;
         ObservedStackVersion := ObservedStackVersion withTraffic |}
    else withTraffic.

Definition GenerateStackSetStatus (ssc : StackSetContainer) : StackSetStatus :=
  foldl countStack
    {| Stacks := 0; ReadyStacks := 0; StacksWithTraffic := 0;
       ObservedStackVersion :=
         ObservedStackVersion (ss_Status (ssc_StackSet ssc)) |}
    (StackContainers ssc).

(** The container once the deployment is observed with [replicas]
    replicas. *)
Definition observeDeployment (replicas : Z) (sc : StackContainer)
  : StackContainer :=
  {| sc_Stack := sc_Stack sc; PendingRemoval := PendingRemoval sc;
     stacksetName := stacksetName sc; ingressSpec := ingressSpec sc;
     scaledownTTLSeconds := scaledownTTLSeconds sc;
     stackReplicas := stackReplicas sc;
     deploymentReplicas := replicas;
     createdReplicas := createdReplicas sc; readyReplicas := readyReplicas sc;
     updatedReplicas := updatedReplicas sc;
     desiredReplicas := desiredReplicas sc;
     actualTrafficWeight := actualTrafficWeight sc;
     desiredTrafficWeight := desiredTrafficWeight sc;
     noTrafficSince := noTrafficSince sc;
     prescalingActive := prescalingActive sc;
     prescalingReplicas := prescalingReplicas sc;
     prescalingDesiredTrafficWeight := prescalingDesiredTrafficWeight sc;
     prescalingLastTrafficIncrease := prescalingLastTrafficIncrease sc |}.

(** ** Notions the properties are stated with *)

(** The weight map a pass over the stacks builds from the weight [w]. *)
Definition weightsOf (w : StackContainer → float) (m : gmap string float)
    (scs : list StackContainer) : gmap string float :=
  foldl (λ m sc, if positive (w sc) then <[scName sc := w sc]> m else m) m scs.

(** The path the shared ingress routes to a stack. *)
Definition pathTo (ingress : StackSetIngressSpec) (sc : StackContainer)
  : HTTPIngressPath :=
  {| hp_Path := Path ingress;
     hp_Backend := {| ServiceName := scName sc;
                      BackendServicePort := BackendPort ingress |} |}.


(** The service port synthesized for port [j] of container [i]. *)
Definition synthesizedPort (i j : nat) (port : ContainerPort) : ServicePort :=
  {| sp_Name :=
       if decide (cp_Name port = "") then "port-" +:+ pretty i +:+ "-" +:+ pretty j
       else cp_Name port;
     sp_Protocol :=
       if decide (cp_Protocol port = "") then "TCP" else cp_Protocol port;
     sp_Port := cp_ContainerPort port;
     sp_TargetPort := FromInt (cp_ContainerPort port);
     sp_NodePort := 0 |}.

(** The counters hold values of [int32]. *)
Definition wrapped (r : StackSetStatus) : Prop :=
  int32 (Stacks r) = Stacks r
  ∧ int32 (StacksWithTraffic r) = StacksWithTraffic r
  ∧ int32 (ReadyStacks r) = ReadyStacks r.

(** The dash that separates the indices of a synthesized port name. *)
Definition dash : Ascii.ascii := Ascii.ascii_of_nat 45.

(** No character of the string is a dash. *)
Fixpoint dashFree (s : string) : Prop :=
  match s with
  | EmptyString => True
  | String c s' => c ≠ dash ∧ dashFree s'
  end.

End Core.

(** ** Collaborators and objects for the worked examples

    One choice of collaborators: an insertion sort for [sort.Slice], a merge
    in which later maps win for [mergeLabels], and stand-ins for the clock,
    the JSON encoder, the metric translation and the host rewriting. *)

Fixpoint insertInOrder {A : Type} (less : A → A → bool) (x : A) (l : list A)
  : list A :=
  match l with
  | [] => [x]
  | y :: l' => if less x y then x :: y :: l' else y :: insertInOrder less x l'
  end.

Definition insertionSort (A : Type) (less : A → A → bool) (l : list A)
  : list A :=
  foldr (insertInOrder less) [] l.

Definition referenceCollaborators : Collaborators :=
  {| now := 1000;
     APIVersion := "zalando.org/v1";
     KindStack := "Stack";
     mergeLabels := foldl (λ merged m, entries m ∪ merged) ∅;
     sortSlice := insertionSort;
     jsonMarshal := λ weights,
       Reply (foldr (λ name names, name +:+ ";" +:+ names) ""
                (map_to_list weights).*1);
     convertCustomMetrics := λ _ _ _, Reply ([], None);
     createSubdomain := λ host name, Reply (name +:+ "." +:+ host) |}.

Definition metaNamed (name : string) (created : Z) (labels : gomap)
  : ObjectMeta :=
  {| Name := name; Namespace := "app"; UID := "uid-" +:+ name; Generation := 1;
     CreationTimestamp := created; Labels := labels; Annotations := None;
     OwnerReferences := [] |}.

Definition podWith (labels : gomap) (ports : list ContainerPort)
  : PodTemplateSpec :=
  {| pt_Meta := {| Name := ""; Namespace := ""; UID := ""; Generation := 0;
                   CreationTimestamp := 0; Labels := labels;
                   Annotations := None; OwnerReferences := [] |};
     pt_Containers := [{| c_Name := "web"; c_Image := "nginx"; c_Ports := ports |}] |}.

Definition specWith (service : option StackServiceSpec) (pod : PodTemplateSpec)
    (autoscaler : option Autoscaler) : StackSpec :=
  {| Replicas := Some 3; StackHPA := None; Service := service;
     PodTemplate := pod; StackAutoscaler := autoscaler |}.

Definition ingressOn (backendPort : IntOrString) : StackSetIngressSpec :=
  {| ing_Meta := emptyMeta; Hosts := ["foo.example.org"];
     BackendPort := backendPort; Path := "/" |}.

(** The StackSet app/foo. *)
Definition stacksetFoo (version observed : string) (limit : option Z)
    (ingress : option StackSetIngressSpec) (service : option StackServiceSpec)
  : StackSet :=
  {| ss_APIVersion := "zalando.org/v1"; ss_Kind := "StackSet";
     ss_Meta := metaNamed "foo" 0 None;
     ss_Spec :=
       {| Ingress := ingress;
          Lifecycle := {| ScaledownTTLSeconds := None; Limit := limit |};
          Template :=
            {| tpl_Meta := emptyMeta;
               tpl_Spec :=
                 {| tpl_StackSpec := specWith service (podWith None []) None;
                    Version := version |} |} |};
     ss_Status := {| Stacks := 0; ReadyStacks := 0; StacksWithTraffic := 0;
                     ObservedStackVersion := observed |} |}.

(** A stack of app/foo as the working set holds it. *)
Definition stackOf (stack : Stack)
    (ingress : option StackSetIngressSpec) (actual desired : float)
    (idleSince : option Z) (deployed : Z) : StackContainer :=
  {| sc_Stack := stack; PendingRemoval := false; stacksetName := "foo";
     ingressSpec := ingress; scaledownTTLSeconds := 300; stackReplicas := 3;
     deploymentReplicas := deployed; createdReplicas := deployed;
     readyReplicas := deployed; updatedReplicas := deployed;
     desiredReplicas := deployed;
     actualTrafficWeight := actual; desiredTrafficWeight := desired;
     noTrafficSince := idleSince;
     prescalingActive := false; prescalingReplicas := 0;
     prescalingDesiredTrafficWeight := PrimFloat.zero;
     prescalingLastTrafficIncrease := None |}.

Definition stackNamed (name : string) (created : Z)
    (ingress : option StackSetIngressSpec) (actual desired : float)
  : StackContainer :=
  stackOf {| st_Meta := metaNamed name created None;
             st_Spec := specWith None (podWith None []) None |}
    ingress actual desired None 3.

Definition allTraffic : float := PrimFloat.of_uint63 100.
Definition noTraffic : float := PrimFloat.zero.

(** Scenario: a fresh StackSet at version v1 with no Stacks, whose template
    lists one service port without a protocol. *)
Definition freshFoo : StackSetContainer :=
  {| ssc_StackSet :=
       stacksetFoo "v1" "" None None
         (Some {| svc_Meta := emptyMeta;
                  svc_Ports :=
                    [{| sp_Name := "http"; sp_Protocol := ""; sp_Port := 80;
                        sp_TargetPort := FromInt 8080; sp_NodePort := 0 |}] |});
     StackContainers := [] |}.

(** Three stacks under a limit of one: v1 and v2 have no ingress, v3 serves
    all traffic. v2 is the older of the two candidates. *)
Definition crowdedFoo (limit : option Z) : StackSetContainer :=
  {| ssc_StackSet := stacksetFoo "v3" "v3" limit (Some (ingressOn (FromInt 80))) None;
     StackContainers :=
       [stackNamed "foo-v1" 30 None noTraffic noTraffic;
        stackNamed "foo-v2" 10 None noTraffic noTraffic;
        stackNamed "foo-v3" 20 (Some (ingressOn (FromInt 80))) allTraffic allTraffic] |}.

(** A negative limit: the excess exceeds the capacity of the candidate
    slice, the reslice panics, and the one candidate is left unmarked. *)
Definition overdrawnFoo : StackSetContainer :=
  {| ssc_StackSet := stacksetFoo "v1" "v1" (Some (-1)) None None;
     StackContainers := [stackNamed "foo-v1" 10 None noTraffic noTraffic] |}.

(** Two stacks behind the shared ingress: v1 still serves everything, v2 is
    wanted next. *)
Definition shiftingFoo : StackSetContainer :=
  {| ssc_StackSet := stacksetFoo "v2" "v2" None (Some (ingressOn (FromInt 80))) None;
     StackContainers :=
       [stackNamed "foo-v2" 20 (Some (ingressOn (FromInt 80))) noTraffic allTraffic;
        stackNamed "foo-v1" 10 (Some (ingressOn (FromInt 80))) allTraffic noTraffic] |}.

(** Scenario: scale-to-zero. No traffic for ten minutes with a TTL of 300
    seconds, three replicas deployed. *)
Definition idleStack : StackContainer :=
  stackOf {| st_Meta := metaNamed "foo-v1" 10 None;
             st_Spec := specWith None (podWith None []) None |}
    (Some (ingressOn (FromInt 80))) noTraffic noTraffic (Some 400) 3.

(** A stack being prescaled to five replicas, whose autoscaler asks for a
    minimum of two. *)
Definition prescaledStack : StackContainer :=
  {| sc_Stack :=
       {| st_Meta := metaNamed "foo-v2" 20 None;
          st_Spec :=
            specWith None (podWith None [])
              (Some {| as_MinReplicas := Some 2; as_MaxReplicas := 10;
                       as_Metrics := [] |}) |};
     PendingRemoval := false; stacksetName := "foo";
     ingressSpec := Some (ingressOn (FromInt 80));
     scaledownTTLSeconds := 300; stackReplicas := 3;
     deploymentReplicas := 3; createdReplicas := 3; readyReplicas := 3;
     updatedReplicas := 3; desiredReplicas := 3;
     actualTrafficWeight := noTraffic; desiredTrafficWeight := allTraffic;
     noTrafficSince := None;
     prescalingActive := true; prescalingReplicas := 5;
     prescalingDesiredTrafficWeight := allTraffic;
     prescalingLastTrafficIncrease := Some 900 |}.

(** An autoscaled stack whose service block is present but lists no port,
    while its one container exposes port 8080. *)
Definition portlessService : StackContainer :=
  stackOf
    {| st_Meta := metaNamed "foo-v1" 10 None;
       st_Spec :=
         specWith (Some {| svc_Meta := emptyMeta; svc_Ports := [] |})
           (podWith None
              [{| cp_Name := ""; cp_HostPort := 0; cp_ContainerPort := 8080;
                  cp_Protocol := ""; cp_HostIP := "" |}])
           (Some {| as_MinReplicas := None; as_MaxReplicas := 10;
                    as_Metrics := [] |}) |}
    None noTraffic noTraffic None 3.

(** The same stack behind an ingress whose backend port is the name of the
    synthesized port. *)
Definition namedBackend : StackContainer :=
  stackOf (sc_Stack portlessService) (Some (ingressOn (FromString "port-0-0")))
    noTraffic noTraffic None 3.

Definition stackLabels : gmap string string :=
  {[ "stackset" := "foo"; "stack-version" := "v1"; "team" := "shop" ]}.

Definition labelledStack (podLabels : gomap) : StackContainer :=
  stackOf {| st_Meta := metaNamed "foo-v1" 10 (Some stackLabels);
             st_Spec := specWith None (podWith podLabels []) None |}
    None noTraffic noTraffic None 3.

(** A container port without a name or a protocol. *)
Definition unnamedPort (port : Z) : ContainerPort :=
  {| cp_Name := ""; cp_HostPort := 0; cp_ContainerPort := port;
     cp_Protocol := ""; cp_HostIP := "" |}.

(** A pod of two containers, none of whose three ports is named. *)
Definition sidecarContainers : list Container :=
  [{| c_Name := "web"; c_Image := "nginx";
      c_Ports := [unnamedPort 8080; unnamedPort 8443] |};
   {| c_Name := "metrics"; c_Image := "exporter";
      c_Ports := [unnamedPort 9090] |}].



(** * Properties *)

Section Properties.
Context `{Collaborators}.

(** ** The new-stack rule *)

Lemma sanitizeLoop_spec (n i : nat) (ports : list ServicePort) :
  (i + n)%nat = length ports →
  sanitizeLoop n i ports = (take i ports ++ (sanitizePort <$> drop i ports))%list.
Proof.
  revert i ports. induction n as [|n IH]; intros i ports Hlen; simpl.
  - rewrite drop_ge by lia. rewrite take_ge by lia. by rewrite app_nil_r.
  - destruct (ports !! i) as [port|] eqn:Hport.
    + rewrite IH by (rewrite length_insert; lia).
      rewrite (take_S_r _ _ (sanitizePort port))
        by (apply list_lookup_insert_eq; eauto using lookup_lt_Some).
      rewrite take_insert_ge by lia.
      rewrite drop_insert_lt by lia.
      rewrite (drop_S _ _ _ Hport). simpl. by rewrite <- app_assoc.
    + apply lookup_ge_None in Hport. lia.
Qed.

Lemma sanitizeServicePorts_ports (service : StackServiceSpec) :
  svc_Ports (sanitizeServicePorts service) = sanitizePort <$> svc_Ports service.
Proof.
  unfold sanitizeServicePorts; simpl.
  by rewrite sanitizeLoop_spec by lia.
Qed.

Lemma stackByName_None (ssc : StackSetContainer) (name : string) :
  stackByName ssc name = None ↔
  ∀ sc, sc ∈ StackContainers ssc → scName sc ≠ name.
Proof.
  unfold stackByName. split.
  - intros Hnone sc Hin Heq.
    apply list_elem_of_In in Hin.
    pose proof (find_none _ _ Hnone sc Hin) as Hf. simpl in Hf.
    apply String.eqb_neq in Hf. done.
  - intros Hall. destruct (find _ _) as [sc|] eqn:Hf; [|done].
    apply find_some in Hf as [Hin Heq].
    apply String.eqb_eq in Heq. apply list_elem_of_In in Hin.
    by destruct (Hall sc Hin).
Qed.

(** C1. [NewStack] returns a new Stack exactly when no Stack named
    <stacksetName>-<version> exists in the working set and the StackSet's
    status.observedStackVersion differs from the current template version
    (the template's version string, "01" when that is empty). The Stack
    returned carries that name, the StackSet's namespace, an owner reference
    to the StackSet, and a spec that snapshots the current template, every
    service port keeping its fields except that a missing protocol becomes
    TCP. In every other case [NewStack] returns nothing. *)
Theorem NewStack_emits_exactly_the_unseen_version (ssc : StackSetContainer) :
  let stackset := ssc_StackSet ssc in
  let template := Template (ss_Spec stackset) in
  let tspec := tpl_StackSpec (tpl_Spec template) in
  let version :=
    if decide (Version (tpl_Spec template) = "") then "01"
    else Version (tpl_Spec template) in
  let name := Name (ss_Meta stackset) +:+ "-" +:+ version in
  let unseen :=
    (∀ sc, sc ∈ StackContainers ssc → scName sc ≠ name)
    ∧ ObservedStackVersion (ss_Status stackset) ≠ version in
  (unseen →
     ∃ sc, (NewStack ssc).1 = (Some sc, version)
       ∧ Name (st_Meta (sc_Stack sc)) = name
       ∧ Namespace (st_Meta (sc_Stack sc)) = Namespace (ss_Meta stackset)
       ∧ OwnerReferences (st_Meta (sc_Stack sc)) =
           [{| or_APIVersion := ss_APIVersion stackset;
               or_Kind := ss_Kind stackset;
               or_Name := Name (ss_Meta stackset);
               or_UID := UID (ss_Meta stackset) |}]
       ∧ Replicas (st_Spec (sc_Stack sc)) = Replicas tspec
       ∧ StackHPA (st_Spec (sc_Stack sc)) = StackHPA tspec
       ∧ PodTemplate (st_Spec (sc_Stack sc)) = PodTemplate tspec
       ∧ StackAutoscaler (st_Spec (sc_Stack sc)) = StackAutoscaler tspec
       ∧ match Service tspec, Service (st_Spec (sc_Stack sc)) with
         | None, None => True
         | Some tsvc, Some svc =>
             svc_Meta svc = svc_Meta tsvc
             ∧ length (svc_Ports svc) = length (svc_Ports tsvc)
             ∧ ∀ (i : nat) (p : ServicePort), svc_Ports tsvc !! i = Some p →
                 ∃ p', svc_Ports svc !! i = Some p'
                   ∧ sp_Name p' = sp_Name p
                   ∧ sp_Port p' = sp_Port p
                   ∧ sp_TargetPort p' = sp_TargetPort p
                   ∧ sp_NodePort p' = sp_NodePort p
                   ∧ sp_Protocol p' =
                       if decide (sp_Protocol p = "") then "TCP" else sp_Protocol p
         | _, _ => False
         end)
  ∧ (¬ unseen → (NewStack ssc).1 = (None, "")).
Proof.
  intros stackset template tspec version name unseen.
  assert (Hcond : unseen ↔
      (stackByName ssc (generateStackName stackset (currentStackVersion stackset)) = None
       ∧ ObservedStackVersion (ss_Status stackset) ≠ currentStackVersion stackset)).
  { unfold unseen. by rewrite stackByName_None. }
  split.
  - intros Hunseen. apply Hcond in Hunseen.
    unfold NewStack. fold stackset. rewrite bool_decide_eq_true_2 by done.
    eexists. split; [reflexivity|]. simpl.
    repeat split; try done.
    fold template. fold tspec.
    destruct (Service tspec) as [tsvc|]; [|done].
    rewrite sanitizeServicePorts_ports. repeat split; [by rewrite length_fmap|].
    intros i p Hp. exists (sanitizePort p).
    rewrite list_lookup_fmap, Hp. split; [done|].
    unfold sanitizePort. by destruct (decide (sp_Protocol p = "")).
  - intros Hseen. unfold NewStack. fold stackset.
    rewrite bool_decide_eq_false_2; [done|]. by rewrite <- Hcond.
Qed.

(** ** The garbage-collection rule *)

Lemma gcCandidate_spec (sc : StackContainer) :
  gcCandidate sc ↔ ingressSpec sc = None ∨ ScaledDown sc = true.
Proof.
  unfold gcCandidate. rewrite orb_True, bool_decide_spec.
  by rewrite Is_true_true.
Qed.

Lemma ScaledDown_no_traffic (sc : StackContainer) :
  ScaledDown sc = true → HasTraffic sc = false.
Proof.
  unfold ScaledDown. intros [Hno _]%andb_true_iff.
  by apply negb_true_iff.
Qed.

Lemma pointers_elem (scs : list StackContainer) (i : nat) (sc : StackContainer) :
  (i, sc) ∈ pointers scs ↔ scs !! i = Some sc.
Proof.
  unfold pointers. rewrite elem_of_lookup_imap. split.
  - by intros (j & y & [= -> ->] & Hy).
  - intros Hi. by exists i, sc.
Qed.

Lemma pointers_fst (scs : list StackContainer) :
  (pointers scs).*1 = seq 0 (length scs).
Proof.
  unfold pointers. rewrite fmap_imap.
  rewrite (imap_ext _ (λ n _, n) scs) by done.
  rewrite (imap_seq_0 scs (λ n, n)). apply list_fmap_id.
Qed.

Lemma filter_indexed_snd {A : Type} (P : A → Prop) `{!∀ x, Decision (P x)}
    (g : nat → nat) (l : list A) :
  (filter (λ p, P p.2) (imap (λ i x, (g i, x)) l)).*2 = filter P l.
Proof.
  revert g. induction l as [|x l IH]; intros g; [done|].
  rewrite imap_cons, !filter_cons. simpl.
  rewrite (imap_ext _ (λ i y, (g (S i), y)) l) by done.
  specialize (IH (λ i, g (S i))). cbv beta in IH.
  destruct (decide (P x)); [rewrite fmap_cons|]; by rewrite IH.
Qed.

Lemma gcCandidates_length (scs : list StackContainer) :
  length (filter (λ p, gcCandidate p.2) (pointers scs)) =
  length (filter (λ sc, ingressSpec sc = None ∨ ScaledDown sc = true) scs).
Proof.
  rewrite <- (length_fmap snd). unfold pointers.
  trans (length (filter (λ sc, gcCandidate sc) scs)).
  { f_equal.
    apply (@filter_indexed_snd _ (λ sc, gcCandidate sc) (λ sc, Is_true_dec _)
             (λ i, i) scs). }
  f_equal. apply list_filter_iff. intros sc. apply gcCandidate_spec.
Qed.

Lemma gcCandidates_NoDup (scs : list StackContainer) :
  NoDup (filter (λ p, gcCandidate p.2) (pointers scs)).*1.
Proof.
  apply (sublist_NoDup _ (pointers scs).*1).
  - rewrite pointers_fst. apply NoDup_seq.
  - apply fmap_sublist, sublist_filter.
Qed.

Lemma olderThan_order : StrictWeakOrder olderThan.
Proof.
  unfold olderThan. split.
  - intros a. apply Z.ltb_irrefl.
  - intros a b c Hab Hbc. apply Z.ltb_lt in Hab, Hbc. apply Z.ltb_lt. lia.
  - intros a b c Hab Hba Hbc Hcb.
    apply Z.ltb_ge in Hab, Hba, Hbc, Hcb. split; apply Z.ltb_ge; lia.
Qed.

Lemma markAll_lookup (marked : list nat) (scs : list StackContainer) (i : nat) :
  markAll marked scs !! i =
  (λ sc, if bool_decide (i ∈ marked) then markPending sc else sc) <$> scs !! i.
Proof. unfold markAll. apply list_lookup_imap. Qed.

Lemma markAll_nil (scs : list StackContainer) : markAll [] scs = scs.
Proof.
  apply list_eq. intros i. rewrite markAll_lookup.
  rewrite bool_decide_eq_false_2 by apply not_elem_of_nil.
  by destruct (scs !! i).
Qed.

Lemma markAll_length (marked : list nat) (scs : list StackContainer) :
  length (markAll marked scs) = length scs.
Proof. unfold markAll. apply length_imap. Qed.

Section SortedCandidates.
Context `{!SortSliceContract}.

(** Whatever prefix of the sorted candidates is marked, a pointer in it
    points at a candidate of the working set. *)
Lemma marked_are_candidates (scs : list StackContainer) (k i : nat) :
  i ∈ (take k (sortSlice olderThan
                 (filter (λ p, gcCandidate p.2) (pointers scs)))).*1 →
  ∃ sc, scs !! i = Some sc ∧ gcCandidate sc
        ∧ (i, sc) ∈ take k (sortSlice olderThan
                       (filter (λ p, gcCandidate p.2) (pointers scs))).
Proof.
  intros ([j sc] & -> & Hin)%list_elem_of_fmap. simpl.
  exists sc. pose proof Hin as Hin'.
  apply elem_of_take in Hin as (n & Hin%list_elem_of_lookup_2 & _).
  rewrite sortSlice_perm in Hin.
  apply list_elem_of_filter in Hin as [Hc Hp]. simpl in Hc.
  apply pointers_elem in Hp. done.
Qed.

(** The run of [MarkExpiredStacks] sets the flag through some pointers, all
    of them to candidates, whether it returns or panics. *)
Lemma MarkExpiredStacks_marks_candidates (ssc : StackSetContainer) :
  ∃ marked : list nat,
    (MarkExpiredStacks ssc).2 =
      {| ssc_StackSet := ssc_StackSet ssc;
         StackContainers := markAll marked (StackContainers ssc) |}
    ∧ ∀ i, i ∈ marked →
        ∃ sc, StackContainers ssc !! i = Some sc ∧ gcCandidate sc.
Proof.
  unfold MarkExpiredStacks.
  case_bool_decide.
  { exists []. rewrite markAll_nil. split; [by destruct ssc|].
    intros i Hi. by apply not_elem_of_nil in Hi. }
  case_bool_decide.
  - eexists. split; [reflexivity|]. intros i Hi.
    apply marked_are_candidates in Hi as (sc & ? & ? & _). eauto.
  - exists []. rewrite markAll_nil. split; [by destruct ssc|].
    intros i Hi. by apply not_elem_of_nil in Hi.
Qed.

(** C7. After [MarkExpiredStacks] runs, however it ends, a Stack that has
    traffic (actual or desired weight positive) is as it was before the
    run: the run has not marked it PendingRemoval, and it does not carry
    the flag unless it carried it before. This holds under the data-model
    invariant that a Stack with ingressSpec == nil never has traffic;
    ScaledDown requires !HasTraffic by its definition. *)
Theorem MarkExpiredStacks_spares_stacks_with_traffic (ssc : StackSetContainer) :
  (∀ sc, sc ∈ StackContainers ssc →
     ingressSpec sc = None → HasTraffic sc = false) →
  ∀ (i : nat) (sc' : StackContainer),
    StackContainers (MarkExpiredStacks ssc).2 !! i = Some sc' →
    HasTraffic sc' = true →
    StackContainers ssc !! i = Some sc'
    ∧ ∀ sc, StackContainers ssc !! i = Some sc →
        PendingRemoval sc = false → PendingRemoval sc' = false.
Proof.
  intros Hinv i sc' Hi Htraffic.
  destruct (MarkExpiredStacks_marks_candidates ssc) as (marked & Heq & Hcand).
  rewrite Heq in Hi. simpl in Hi. rewrite markAll_lookup in Hi.
  destruct (StackContainers ssc !! i) as [sc|] eqn:Hsc; [|done].
  simpl in Hi. injection Hi as <-.
  assert (Hin : sc ∈ StackContainers ssc) by by eapply list_elem_of_lookup_2.
  case_bool_decide as Hmarked.
  - exfalso. destruct (Hcand i Hmarked) as (sc0 & Hsc0 & Hc).
    assert (sc0 = sc) as -> by congruence.
    change (HasTraffic sc = true) in Htraffic.
    apply gcCandidate_spec in Hc as [Hnil | Hdown].
    + rewrite (Hinv sc Hin Hnil) in Htraffic. done.
    + rewrite (ScaledDown_no_traffic sc Hdown) in Htraffic. done.
  - split; [done|]. by intros sc0 [= <-].
Qed.

(** C2, as amended. When stackLifecycle.limit is unset (then it is 10) or
    set to a non-negative number, [MarkExpiredStacks] returns and marks as
    PendingRemoval exactly max(0, |C| - limit) members of the candidate set
    C = stacks with ingressSpec == nil or currently ScaledDown: the marked
    ones are distinct members of C, no unmarked member of C was created
    before a marked one, and every other stack is left as it was. In
    particular when |C| <= limit no stack is marked, and a stack outside C
    is never marked regardless of age. *)
Theorem MarkExpiredStacks_marks_the_oldest_excess (ssc : StackSetContainer) :
  let scs := StackContainers ssc in
  let limit :=
    match Limit (Lifecycle (ss_Spec (ssc_StackSet ssc))) with
    | Some l => l
    | None => 10
    end in
  let candidate (sc : StackContainer) :=
    ingressSpec sc = None ∨ ScaledDown sc = true in
  let created (sc : StackContainer) :=
    CreationTimestamp (st_Meta (sc_Stack sc)) in
  let count :=
    Z.of_nat (length
      (filter (λ sc, ingressSpec sc = None ∨ ScaledDown sc = true) scs)) in
  0 ≤ limit →
  ∃ (marked : list nat) (scs' : list StackContainer),
    MarkExpiredStacks ssc =
      (Returned, {| ssc_StackSet := ssc_StackSet ssc; StackContainers := scs' |})
    ∧ NoDup marked
    ∧ Z.of_nat (length marked) = Z.max 0 (count - limit)
    ∧ (∀ i, i ∈ marked → ∃ sc, scs !! i = Some sc ∧ candidate sc)
    ∧ (∀ i j sci scj,
         i ∈ marked → j ∉ marked →
         scs !! i = Some sci → scs !! j = Some scj → candidate scj →
         created sci ≤ created scj)
    ∧ length scs' = length scs
    ∧ (∀ i sc, scs !! i = Some sc →
         scs' !! i =
           Some (if bool_decide (i ∈ marked) then markPending sc else sc))
    ∧ (count ≤ limit → marked = [] ∧ scs' = scs).
Proof.
  intros scs limit candidate created count Hlimit.
  unfold MarkExpiredStacks. fold scs.
  change defaultStackLifecycleLimit with 10. fold limit.
  rewrite gcCandidates_length. fold count.
  set (gcCandidates := filter (λ p, gcCandidate p.2) (pointers scs)).
  set (sorted := sortSlice olderThan gcCandidates).
  assert (Hcount : count = Z.of_nat (length gcCandidates)).
  { unfold count, gcCandidates. by rewrite gcCandidates_length. }
  case_bool_decide as Hfew.
  { exists [], scs. rewrite Z.max_l by lia.
    repeat split; try done.
    - by destruct ssc.
    - apply NoDup_nil_2.
    - intros i Hi. by apply not_elem_of_nil in Hi.
    - intros i j sci scj Hi. by apply not_elem_of_nil in Hi. }
  assert (Hcap : count ≤ Z.of_nat (length scs)).
  { unfold count. apply inj_le, length_filter. }
  rewrite bool_decide_eq_true_2 by lia.
  rewrite bool_decide_eq_true_2 by lia.
  set (k := Z.to_nat (count - limit)).
  assert (Hperm : sorted ≡ₚ gcCandidates) by apply sortSlice_perm.
  assert (Hlen : length sorted = length gcCandidates) by by rewrite Hperm.
  exists (take k sorted).*1, (markAll (take k sorted).*1 scs).
  split; [done|]. split.
  { rewrite fmap_take. apply (sublist_NoDup _ (sorted.*1)).
    - rewrite Hperm. apply gcCandidates_NoDup.
    - apply sublist_take. }
  split.
  { rewrite length_fmap, length_take_le by lia. lia. }
  split.
  { intros i Hi. apply marked_are_candidates in Hi as (sc & Hsc & Hc & _).
    exists sc. split; [done|]. by apply gcCandidate_spec. }
  split.
  { intros i j sci scj Hi Hj Hsci Hscj Hcj.
    apply marked_are_candidates in Hi as (sc & Hsc & _ & Hin).
    assert (sc = sci) as -> by congruence.
    assert (Hjs : (j, scj) ∈ sorted).
    { rewrite Hperm. apply list_elem_of_filter. split.
      - by apply gcCandidate_spec.
      - by apply pointers_elem. }
    rewrite <- (take_drop k sorted) in Hjs.
    apply elem_of_app in Hjs as [Hjs | Hjs].
    { destruct Hj. apply list_elem_of_fmap. by exists (j, scj). }
    pose proof (sortSlice_ordered _ olderThan gcCandidates olderThan_order)
      as Hord.
    fold sorted in Hord. unfold InOrder in Hord.
    rewrite <- (take_drop k sorted) in Hord.
    pose proof (StronglySorted_app_1_elem_of _ _ _ _ _ Hord Hin Hjs) as Hle.
    unfold olderThan in Hle. simpl in Hle. apply Z.ltb_ge in Hle. done. }
  split; [apply markAll_length|]. split.
  { intros i sc Hsc. by rewrite markAll_lookup, Hsc. }
  intros ?. lia.
Qed.

End SortedCandidates.

(** ** The shared ingress *)

Lemma gather_actualWeights ingress (scs : list StackContainer) (g : gathered) :
  actualWeights (foldl (gatherStack ingress) g scs) =
  weightsOf actualTrafficWeight (actualWeights g) scs.
Proof.
  revert g. induction scs as [|sc scs IH]; intros g; [done|].
  simpl. rewrite IH. f_equal. unfold gatherStack.
  by destruct (positive (actualTrafficWeight sc)),
              (positive (desiredTrafficWeight sc)).
Qed.

Lemma gather_desiredWeights ingress (scs : list StackContainer) (g : gathered) :
  desiredWeights (foldl (gatherStack ingress) g scs) =
  weightsOf desiredTrafficWeight (desiredWeights g) scs.
Proof.
  revert g. induction scs as [|sc scs IH]; intros g; [done|].
  simpl. rewrite IH. f_equal. unfold gatherStack.
  by destruct (positive (actualTrafficWeight sc)),
              (positive (desiredTrafficWeight sc)).
Qed.

Lemma gather_paths ingress (scs : list StackContainer) (g : gathered) :
  gatheredPaths (foldl (gatherStack ingress) g scs) =
  (gatheredPaths g ++
   (pathTo ingress <$>
      filter (λ sc, positive (actualTrafficWeight sc) = true) scs))%list.
Proof.
  revert g. induction scs as [|sc scs IH]; intros g.
  { simpl. by rewrite app_nil_r. }
  simpl. rewrite IH, filter_cons. unfold gatherStack.
  destruct (decide (positive (actualTrafficWeight sc) = true)) as [Ha|Ha];
    [|apply not_true_is_false in Ha]; rewrite Ha;
    destruct (positive (desiredTrafficWeight sc)); simpl;
    by rewrite <- ?app_assoc.
Qed.

Section Weights.
Context (w : StackContainer → float).

Lemma weightsOf_snoc m (scs : list StackContainer) (sc : StackContainer) :
  weightsOf w m (scs ++ [sc]) =
  if positive (w sc) then <[scName sc := w sc]> (weightsOf w m scs)
  else weightsOf w m scs.
Proof. unfold weightsOf. by rewrite foldl_app. Qed.

(** Every entry of the map is the positive weight of a stack of that name. *)
Lemma weightsOf_lookup_Some (scs : list StackContainer) name x :
  weightsOf w ∅ scs !! name = Some x →
  ∃ sc, sc ∈ scs ∧ scName sc = name ∧ w sc = x ∧ positive x = true.
Proof.
  induction scs as [|sc scs IH] using rev_ind; [done|].
  rewrite weightsOf_snoc. intros Hl.
  assert (Hold : weightsOf w ∅ scs !! name = Some x →
    ∃ sc0, sc0 ∈ scs ++ [sc] ∧ scName sc0 = name ∧ w sc0 = x ∧ positive x = true).
  { intros (sc0 & ? & ?)%IH. exists sc0. split; [|done].
    apply elem_of_app. by left. }
  destruct (positive (w sc)) eqn:Hpos; [|by apply Hold].
  destruct (decide (scName sc = name)) as [<-|Hne].
  - rewrite lookup_insert_eq in Hl. injection Hl as <-.
    exists sc. split; [|done]. apply elem_of_app. right. by apply list_elem_of_singleton.
  - rewrite lookup_insert_ne in Hl by done. by apply Hold.
Qed.


(** With stack names unique, the entry is the stack's own weight. *)
Lemma weightsOf_lookup_unique (scs : list StackContainer) sc :
  NoDup (scName <$> scs) →
  sc ∈ scs → positive (w sc) = true →
  weightsOf w ∅ scs !! scName sc = Some (w sc).
Proof.
  induction scs as [|sc0 scs IH] using rev_ind; intros Hnd Hin Hpos.
  { by apply not_elem_of_nil in Hin. }
  rewrite weightsOf_snoc. rewrite fmap_app in Hnd.
  apply NoDup_app in Hnd as (Hnd & Hfresh & _).
  apply elem_of_app in Hin as [Hin | ->%list_elem_of_singleton].
  - assert (scName sc0 ≠ scName sc).
    { intros Heq. apply (Hfresh (scName sc)).
      - by apply list_elem_of_fmap_2.
      - simpl. rewrite Heq. apply list_elem_of_singleton. done. }
    destruct (positive (w sc0)); [|by apply IH].
    rewrite lookup_insert_ne by done. by apply IH.
  - rewrite Hpos. by rewrite lookup_insert_eq.
Qed.
End Weights.

(** Go's [<] on strings is [String.ltb]: bytewise lexicographic. *)
Lemma string_ltb_lt (a b : string) :
  String.ltb a b = true ↔ OrderedTypeEx.String_as_OT.lt a b.
Proof.
  rewrite <- OrderedTypeEx.String_as_OT.cmp_lt.
  unfold String.ltb, OrderedTypeEx.String_as_OT.cmp.
  by destruct (String.compare a b).
Qed.

Lemma string_ltb_irrefl (a : string) : String.ltb a a = false.
Proof.
  unfold String.ltb. pose proof (String.compare_antisym a a) as Hanti.
  destruct (String.compare a a); simpl in Hanti; done.
Qed.

Lemma string_ltb_trans (a b c : string) :
  String.ltb a b = true → String.ltb b c = true → String.ltb a c = true.
Proof.
  rewrite !string_ltb_lt. apply OrderedTypeEx.String_as_OT.lt_trans.
Qed.

Lemma string_ltb_total (a b : string) :
  a ≠ b → String.ltb b a = false → String.ltb a b = true.
Proof.
  intros Hne. unfold String.ltb. rewrite (String.compare_antisym a b).
  destruct (String.compare b a) eqn:Hc; simpl; try done.
  apply String.compare_eq_iff in Hc. by destruct Hne.
Qed.

Lemma string_ltb_incomparable (a b : string) :
  String.ltb a b = false → String.ltb b a = false → a = b.
Proof.
  intros Hab Hba. destruct (decide (a = b)) as [|Hne]; [done|].
  rewrite (string_ltb_total a b Hne Hba) in Hab. done.
Qed.

Lemma byServiceName_order : StrictWeakOrder byServiceName.
Proof.
  unfold byServiceName. split.
  - intros a. apply string_ltb_irrefl.
  - intros a b c. apply string_ltb_trans.
  - intros a b c Hab Hba Hbc Hcb.
    rewrite (string_ltb_incomparable _ _ Hab Hba).
    by rewrite (string_ltb_incomparable _ _ Hbc Hcb), string_ltb_irrefl.
Qed.






(** ** The replica planner *)

(** C4. [GenerateDeployment] decides the deployment replica count as the
    specification's algorithm: with desired = prescalingReplicas when
    prescalingActive, else stackReplicas; if desired != 0 and the stack is
    not ScaledDown, replicas is written as desired when
    deploymentReplicas == 0 or when the stack is not autoscaled and
    desired != deploymentReplicas, and left unset otherwise; if
    desired == 0 or the stack is ScaledDown, replicas is written as 0 when
    deploymentReplicas != 0 and left unset otherwise. *)
Theorem GenerateDeployment_replicas_decision (sc : StackContainer) :
  let desired :=
    if prescalingActive sc then prescalingReplicas sc else stackReplicas sc in
  let replicas := d_Replicas (GenerateDeployment sc) in
  (desired ≠ 0 ∧ ScaledDown sc = false →
     (deploymentReplicas sc = 0
      ∨ (IsAutoscaled sc = false ∧ desired ≠ deploymentReplicas sc) →
      replicas = Some desired)
     ∧ (deploymentReplicas sc ≠ 0
        ∧ (IsAutoscaled sc = true ∨ desired = deploymentReplicas sc) →
        replicas = None))
  ∧ (desired = 0 ∨ ScaledDown sc = true →
     (deploymentReplicas sc ≠ 0 → replicas = Some 0)
     ∧ (deploymentReplicas sc = 0 → replicas = None)).
Proof.
  intros desired replicas. unfold replicas, GenerateDeployment.
  cbn [d_Replicas]. fold desired. unfold wrapReplicas.
  split.
  - intros [Hdesired Hup]. rewrite Hup.
    rewrite (bool_decide_eq_true_2 (desired ≠ 0)) by done. simpl.
    split.
    + intros [Hzero | [Hauto Hne]].
      * by rewrite (bool_decide_eq_true_2 _ Hzero).
      * rewrite Hauto, (bool_decide_eq_true_2 _ Hne). simpl.
        by rewrite orb_true_r.
    + intros [Hnz [Hauto | Heq]].
      * rewrite Hauto, (bool_decide_eq_false_2 _ Hnz). done.
      * rewrite (bool_decide_eq_false_2 _ Hnz).
        rewrite (bool_decide_eq_false_2 (desired ≠ deploymentReplicas sc))
          by (intros Hne; by apply Hne).
        by rewrite andb_false_r.
  - intros Hdown.
    assert (bool_decide (desired ≠ 0) && negb (ScaledDown sc) = false) as ->.
    { destruct Hdown as [Hzero | Hdown].
      - rewrite bool_decide_eq_false_2; [done|]. by intros Hne.
      - rewrite Hdown. apply andb_false_r. }
    split.
    + intros Hnz. by rewrite (bool_decide_eq_true_2 _ Hnz).
    + intros Hz. rewrite bool_decide_eq_false_2; [done|]. by intros Hne.
Qed.

(** C6. With prescalingActive, the HorizontalPodAutoscaler that
    [GenerateHPA] produces has minReplicas at least prescalingReplicas: a
    configured minReplicas (the autoscaler's, or else the HPA spec's) that
    is unset or below prescalingReplicas is raised to exactly
    prescalingReplicas, and one that is not below it is kept. Without
    prescaling the configured minReplicas is passed through unchanged.
    [GenerateHPA] produces the autoscaler whenever one of the two specs is
    present and the translation of the custom metrics, if any is needed,
    succeeds. *)
Theorem GenerateHPA_minReplicas_clamp (sc : StackContainer) :
  let spec := st_Spec (sc_Stack sc) in
  let configured :=
    match StackAutoscaler spec, StackHPA spec with
    | Some autoscaler, _ => as_MinReplicas autoscaler
    | None, Some hpa => hpa_MinReplicas hpa
    | None, None => None
    end in
  (∀ hpa, GenerateHPA sc = Ok (Some hpa) →
     (prescalingActive sc = true →
        (∃ m, h_MinReplicas hpa = Some m ∧ prescalingReplicas sc ≤ m)
        ∧ (configured = None → h_MinReplicas hpa = Some (prescalingReplicas sc))
        ∧ (∀ m, configured = Some m → m < prescalingReplicas sc →
             h_MinReplicas hpa = Some (prescalingReplicas sc))
        ∧ (∀ m, configured = Some m → prescalingReplicas sc ≤ m →
             h_MinReplicas hpa = Some m))
     ∧ (prescalingActive sc = false → h_MinReplicas hpa = configured))
  ∧ (StackAutoscaler spec = None → is_Some (StackHPA spec) →
     ∃ hpa, GenerateHPA sc = Ok (Some hpa))
  ∧ (∀ autoscaler reply,
       StackAutoscaler spec = Some autoscaler →
       convertCustomMetrics (stacksetName sc) (scName sc)
         (as_Metrics autoscaler) = Reply reply →
       ∃ hpa, GenerateHPA sc = Ok (Some hpa)).
Proof.
  intros spec configured.
  assert (Hmin : ∀ hpa, GenerateHPA sc = Ok (Some hpa) →
    h_MinReplicas hpa = prescaledMinReplicas sc configured).
  { intros hpa. unfold GenerateHPA, configured. fold spec.
    destruct (StackAutoscaler spec) as [autoscaler|].
    - destruct (convertCustomMetrics _ _ _) as [[metrics annotations]|];
        [|done].
      by intros [= <-].
    - destruct (StackHPA spec) as [h|]; [|done]. by intros [= <-]. }
  split; [|split].
  - intros hpa Hhpa. rewrite (Hmin hpa Hhpa). unfold prescaledMinReplicas.
    split.
    + intros ->. simpl. destruct configured as [m|].
      * case_bool_decide; repeat split; try done.
        { exists (prescalingReplicas sc). split; [done|lia]. }
        { intros m' [= <-] ?. lia. }
        { exists m. split; [done|lia]. }
        { intros m' [= <-] ?. lia. }
      * repeat split; try done. exists (prescalingReplicas sc).
        split; [done|lia].
    + by intros ->.
  - intros Hnone [h Hh]. unfold GenerateHPA. fold spec.
    rewrite Hnone, Hh. eauto.
  - intros autoscaler [metrics annotations] Hauto Hreply.
    unfold GenerateHPA. fold spec. rewrite Hauto, Hreply. eauto.
Qed.

(** ** The service *)

Lemma servicePortsFromContainers_elem (containers : list Container)
    (sp : ServicePort) :
  sp ∈ servicePortsFromContainers containers ↔
  ∃ i j container port,
    containers !! i = Some container
    ∧ c_Ports container !! j = Some port
    ∧ sp = synthesizedPort i j port.
Proof.
  unfold servicePortsFromContainers.
  rewrite list_elem_of_join. split.
  - intros (l & Hsp & Hl).
    apply elem_of_lookup_imap in Hl as (i & container & -> & Hc).
    apply elem_of_lookup_imap in Hsp as (j & port & -> & Hp).
    by exists i, j, container, port.
  - intros (i & j & container & port & Hc & Hp & ->).
    eexists. split.
    + apply (elem_of_lookup_imap_2 _ _ _ j Hp).
    + apply (elem_of_lookup_imap_2
               (λ i container, imap _ (c_Ports container)) _ _ i Hc).
Qed.

Lemma servicePortsFromContainers_length (containers : list Container) :
  length (servicePortsFromContainers containers) =
  sum_list ((λ container, length (c_Ports container)) <$> containers).
Proof.
  unfold servicePortsFromContainers.
  rewrite length_join, fmap_imap. f_equal.
  rewrite <- imap_const. apply imap_ext. intros i container _.
  simpl. apply length_imap.
Qed.

Lemma existsb_matchesBackendPort (backendPort : IntOrString)
    (ports : list ServicePort) :
  existsb (matchesBackendPort backendPort) ports = true ↔
  match backendPort with
  | FromInt n => ∃ p, p ∈ ports ∧ sp_Port p = n
  | FromString s => ∃ p, p ∈ ports ∧ sp_Name p = s
  end.
Proof.
  rewrite existsb_exists. unfold matchesBackendPort.
  destruct backendPort; split.
  - intros (p & Hin%list_elem_of_In & Hp%bool_decide_eq_true). eauto.
  - intros (p & Hin%list_elem_of_In & Hp). exists p.
    split; [done|]. by apply bool_decide_eq_true.
  - intros (p & Hin%list_elem_of_In & Hp%bool_decide_eq_true). eauto.
  - intros (p & Hin%list_elem_of_In & Hp). exists p.
    split; [done|]. by apply bool_decide_eq_true.
Qed.

(** C5, as amended. The service ports used by [GenerateService] are those
    of the Stack spec's service block when that block is present and lists
    at least one port; when the block is absent, or present without ports,
    they are synthesized, one per container port of the pod template, with
    name port-<containerIdx>-<portIdx> unless the container port is named,
    protocol TCP unless the container port has one, and targetPort equal to
    containerPort. When an ingress backend port is present, generation
    succeeds if and only if at least one service port matches it (by port
    number for an integer backend port, by name for a named one) and fails
    with the port-mismatch error otherwise; without one it succeeds. *)
Theorem GenerateService_ports (sc : StackContainer) :
  let spec := st_Spec (sc_Stack sc) in
  let containers := pt_Containers (PodTemplate spec) in
  ∃ ports : list ServicePort,
    (∀ block, Service spec = Some block → svc_Ports block ≠ [] →
       ports = svc_Ports block)
    ∧ (Service spec = None
       ∨ (∃ block, Service spec = Some block ∧ svc_Ports block = []) →
       length ports =
         sum_list ((λ container, length (c_Ports container)) <$> containers)
       ∧ ∀ sp, sp ∈ ports ↔
           ∃ i j container port,
             containers !! i = Some container
             ∧ c_Ports container !! j = Some port
             ∧ sp_Name sp =
                 (if decide (cp_Name port = "")
                  then "port-" +:+ pretty i +:+ "-" +:+ pretty j
                  else cp_Name port)
             ∧ sp_Protocol sp =
                 (if decide (cp_Protocol port = "") then "TCP"
                  else cp_Protocol port)
             ∧ sp_Port sp = cp_ContainerPort port
             ∧ sp_TargetPort sp = FromInt (cp_ContainerPort port)
             ∧ sp_NodePort sp = 0)
    ∧ (∀ svc, GenerateService sc = Ok (Some svc) → s_Ports svc = ports)
    ∧ match ingressSpec sc with
      | None => ∃ svc, GenerateService sc = Ok (Some svc)
      | Some ingress =>
          let matched :=
            match BackendPort ingress with
            | FromInt n => ∃ p, p ∈ ports ∧ sp_Port p = n
            | FromString s => ∃ p, p ∈ ports ∧ sp_Name p = s
            end in
          ((∃ svc, GenerateService sc = Ok (Some svc)) ↔ matched)
          ∧ (¬ matched →
             GenerateService sc =
               Err (errNoMatchingPort (IntOrString_String (BackendPort ingress))))
      end.
Proof.
  intros spec containers.
  set (ports :=
    match Service spec with
    | None => servicePortsFromContainers containers
    | Some service =>
        if bool_decide (length (svc_Ports service) = 0%nat)
        then servicePortsFromContainers containers
        else svc_Ports service
    end).
  assert (Hget : ∀ backendPort, getServicePorts spec backendPort =
    match backendPort with
    | Some port =>
        if existsb (matchesBackendPort port) ports then Ok ports
        else Err (errNoMatchingPort (IntOrString_String port))
    | None => Ok ports
    end) by done.
  exists ports. split; [|split; [|split]].
  - intros block Hblock Hports. unfold ports. rewrite Hblock.
    rewrite bool_decide_eq_false_2; [done|].
    by rewrite length_zero_iff_nil.
  - intros Habsent.
    assert (ports = servicePortsFromContainers containers) as ->.
    { unfold ports. destruct Habsent as [-> | (block & -> & ->)]; done. }
    split; [apply servicePortsFromContainers_length|].
    intros sp. rewrite servicePortsFromContainers_elem.
    split.
    + intros (i & j & container & port & Hc & Hp & ->).
      by exists i, j, container, port.
    + intros (i & j & container & port & Hc & Hp & ? & ? & ? & ? & ?).
      exists i, j, container, port. repeat split; try done.
      destruct sp. simpl in *. by subst.
  - intros svc. unfold GenerateService. fold spec. rewrite Hget.
    destruct (ingressSpec sc) as [ingress|].
    + destruct (existsb _ _); [|done]. by intros [= <-].
    + by intros [= <-].
  - unfold GenerateService. fold spec.
    destruct (ingressSpec sc) as [ingress|]; rewrite Hget; [|eauto].
    pose proof (existsb_matchesBackendPort (BackendPort ingress) ports)
      as Hmatch.
    set (matched :=
      match BackendPort ingress with
      | FromInt n => ∃ p, p ∈ ports ∧ sp_Port p = n
      | FromString s => ∃ p, p ∈ ports ∧ sp_Name p = s
      end) in *.
    destruct (existsb _ _).
    + split; [|by intros []; apply Hmatch]. split; [by intros; apply Hmatch|eauto].
    + assert (¬ matched) by (by intros ?%Hmatch).
      split; [|done]. split; [by intros [? ?]|done].
Qed.

(** ** The deployment's labels *)

Lemma mapCopy_id (m : gmap string string) : mapCopy m = m.
Proof.
  unfold mapCopy.
  apply (map_fold_weak_ind (λ r m, r = m)); [done|].
  by intros k v m' r _ ->.
Qed.

Lemma limitLabels_lookup (labels : gmap string string) (validKeys : gset string)
    (k : string) :
  limitLabels labels validKeys !! k =
  if bool_decide (k ∈ validKeys) then labels !! k else None.
Proof.
  unfold limitLabels.
  apply (map_fold_weak_ind (λ r m,
    r !! k = if bool_decide (k ∈ validKeys) then m !! k else None)).
  - rewrite !lookup_empty. by case_bool_decide.
  - intros i v m r Hfresh IH.
    destruct (decide (i = k)) as [->|Hne].
    + case_bool_decide; [by rewrite !lookup_insert_eq|].
      by rewrite IH.
    + rewrite (lookup_insert_ne m), <- IH by done.
      destruct (bool_decide (i ∈ validKeys)); [|done].
      by rewrite lookup_insert_ne.
Qed.

Lemma templateInjectLabels_lookup (template : PodTemplateSpec)
    (labels : gmap string string) (k : string) :
  entries (Labels (pt_Meta (templateInjectLabels template labels))) !! k =
  match entries (Labels (pt_Meta template)) !! k with
  | Some v => Some v
  | None => labels !! k
  end.
Proof.
  unfold templateInjectLabels. cbn [pt_Meta Labels entries default].
  replace (match Labels (pt_Meta template) with Some l => l | None => ∅ end)
    with (entries (Labels (pt_Meta template)))
    by (by destruct (Labels (pt_Meta template))).
  generalize (entries (Labels (pt_Meta template))). intros own.
  apply (map_fold_weak_ind (λ r m,
    r !! k = match own !! k with Some v => Some v | None => m !! k end)).
  - rewrite lookup_empty. by destruct (own !! k).
  - intros i v m r Hfresh IH.
    destruct (decide (i = k)) as [->|Hne].
    + rewrite lookup_insert_eq. rewrite Hfresh in IH.
      destruct (r !! k) eqn:Hr.
      * rewrite Hr. by destruct (own !! k).
      * rewrite lookup_insert_eq. by destruct (own !! k).
    + rewrite (lookup_insert_ne m) by done.
      destruct (r !! i); [done|]. by rewrite lookup_insert_ne.
Qed.

(** C8, as amended. The deployment [GenerateDeployment] produces has a
    selector whose matchLabels are exactly the Stack's labels restricted to
    the keys stackset and stack-version. The generated pod template keeps
    every label set explicitly in the Stack's pod template and inherits the
    Stack's other labels. Hence every selector key is a key of the template
    labels, with the same value wherever the pod template does not set that
    key itself; when it sets none of the selector's keys, the selector
    labels are a subset of the template labels. *)
Theorem GenerateDeployment_selector_and_template_labels (sc : StackContainer) :
  let labels := entries (Labels (st_Meta (sc_Stack sc))) in
  let own := entries (Labels (pt_Meta (PodTemplate (st_Spec (sc_Stack sc))))) in
  let selector := d_MatchLabels (GenerateDeployment sc) in
  let templateLabels :=
    entries (Labels (pt_Meta (d_Template (GenerateDeployment sc)))) in
  (∀ k, selector !! k =
        if bool_decide (k = "stackset" ∨ k = "stack-version")
        then labels !! k else None)
  ∧ (∀ k v, own !! k = Some v → templateLabels !! k = Some v)
  ∧ (∀ k, own !! k = None → templateLabels !! k = labels !! k)
  ∧ (∀ k, is_Some (selector !! k) → is_Some (templateLabels !! k))
  ∧ (∀ k v, selector !! k = Some v → own !! k = None →
       templateLabels !! k = Some v)
  ∧ ((∀ k, is_Some (selector !! k) → own !! k = None) →
     selector ⊆ templateLabels).
Proof.
  intros labels own selector templateLabels.
  assert (Hsel : ∀ k, selector !! k =
    if bool_decide (k = "stackset" ∨ k = "stack-version")
    then labels !! k else None).
  { intros k. unfold selector, GenerateDeployment. cbn [d_MatchLabels].
    fold labels. rewrite limitLabels_lookup. unfold selectorLabels.
    rewrite (bool_decide_ext _ (k = "stackset" ∨ k = "stack-version")); [done|].
    unfold StacksetHeritageLabelKey, StackVersionLabelKey. set_solver. }
  assert (Htpl : ∀ k, templateLabels !! k =
    match own !! k with Some v => Some v | None => labels !! k end).
  { intros k. unfold templateLabels, GenerateDeployment. cbn [d_Template].
    by rewrite templateInjectLabels_lookup. }
  assert (Hkeep : ∀ k v, selector !! k = Some v → own !! k = None →
    templateLabels !! k = Some v).
  { intros k v Hk Hown. rewrite Htpl, Hown. rewrite Hsel in Hk.
    by case_bool_decide. }
  split; [done|]. split.
  { intros k v Hown. by rewrite Htpl, Hown. }
  split.
  { intros k Hown. by rewrite Htpl, Hown. }
  split.
  { intros k [v Hk]. rewrite Htpl. destruct (own !! k) eqn:Hown; [done|].
    rewrite Hsel in Hk. case_bool_decide; [by rewrite Hk|done]. }
  split; [done|].
  intros Hfree. apply map_subseteq_spec. intros k v Hk.
  apply Hkeep; [done|]. apply Hfree. by rewrite Hk.
Qed.

(** ** Absent spec sections *)

(** C10. When the relevant spec section is absent a generator returns no
    object and no error: the shared [GenerateIngress] when the StackSet has
    no ingress spec, whatever the Stacks' traffic weights (so the no-paths
    error can only arise with an ingress spec present); the per-stack
    [GenerateIngress] when the container's ingressSpec is nil; and
    [GenerateHPA] when the Stack has neither an autoscaler nor a
    horizontalPodAutoscaler spec. *)
Theorem generators_skip_absent_sections :
  (∀ ssc : StackSetContainer,
     Ingress (ss_Spec (ssc_StackSet ssc)) = None →
     GenerateStackSetIngress ssc = Ok None)
  ∧ (∀ ssc : StackSetContainer,
       GenerateStackSetIngress ssc = Err errNoPaths →
       is_Some (Ingress (ss_Spec (ssc_StackSet ssc))))
  ∧ (∀ sc : StackContainer,
       ingressSpec sc = None → GenerateStackIngress sc = Ok None)
  ∧ (∀ sc : StackContainer,
       StackAutoscaler (st_Spec (sc_Stack sc)) = None →
       StackHPA (st_Spec (sc_Stack sc)) = None →
       GenerateHPA sc = Ok None).
Proof.
  split; [|split; [|split]].
  - intros ssc Hnone. unfold GenerateStackSetIngress. by rewrite Hnone.
  - intros ssc. unfold GenerateStackSetIngress.
    by destruct (Ingress (ss_Spec (ssc_StackSet ssc))).
  - intros sc Hnone. unfold GenerateStackIngress. by rewrite Hnone.
  - intros sc Hauto Hhpa. unfold GenerateHPA. by rewrite Hauto, Hhpa.
Qed.

(** ** The status aggregator *)

Lemma int32_small (x : Z) : - 2 ^ 31 ≤ x < 2 ^ 31 → int32 x = x.
Proof. intros Hx. unfold int32. rewrite Z.mod_small; lia. Qed.

Lemma int32_add_l (a b : Z) : int32 (int32 a + b) = int32 (a + b).
Proof.
  unfold int32. f_equal.
  generalize (2 ^ 31) (2 ^ 32). intros half size.
  replace (a + b + half) with (a + half + b) by lia.
  rewrite <- (Zplus_mod_idemp_l (a + half) b size).
  f_equal. lia.
Qed.

Lemma int32_idemp (a : Z) : int32 (int32 a) = int32 a.
Proof.
  pose proof (int32_add_l a 0) as Hadd. by rewrite !Z.add_0_r in Hadd.
Qed.

Lemma countStack_fold (scs : list StackContainer) (r : StackSetStatus) :
  wrapped r →
  let r' := foldl countStack r scs in
  wrapped r'
  ∧ Stacks r' =
      int32 (Stacks r + Z.of_nat (length (filter (λ sc, PendingRemoval sc = false) scs)))
  ∧ StacksWithTraffic r' =
      int32 (StacksWithTraffic r +
             Z.of_nat (length (filter (λ sc, PendingRemoval sc = false
                                             ∧ HasTraffic sc = true) scs)))
  ∧ ReadyStacks r' =
      int32 (ReadyStacks r +
             Z.of_nat (length (filter (λ sc, PendingRemoval sc = false
                                             ∧ IsReady sc = true) scs)))
  ∧ ObservedStackVersion r' = ObservedStackVersion r.
Proof.
  revert r. induction scs as [|sc scs IH]; intros r (Hs & Ht & Hr).
  { simpl. rewrite !Z.add_0_r. by rewrite Hs, Ht, Hr. }
  cbn [foldl]. rewrite !filter_cons.
  destruct (IH (countStack r sc)) as (Hw & -> & -> & -> & ->).
  { unfold countStack, wrapped.
    destruct (PendingRemoval sc), (HasTraffic sc), (IsReady sc); simpl;
      rewrite ?int32_idemp; done. }
  split; [done|]. unfold countStack.
  destruct (PendingRemoval sc) eqn:Hp, (HasTraffic sc) eqn:Htr,
           (IsReady sc) eqn:Hre; simpl;
    repeat (destruct (decide _) as [?|?]; try naive_solver);
    simpl length; rewrite ?int32_add_l;
    repeat split; try done; f_equal; lia.
Qed.

Lemma filter_imap_length {A : Type} (P : A → Prop) `{!∀ x, Decision (P x)}
    (f : nat → A → A) (l : list A) :
  (∀ i x, l !! i = Some x → (P (f i x) ↔ P x)) →
  length (filter P (imap f l)) = length (filter P l).
Proof.
  revert f. induction l as [|x l IH]; intros f Hf; [done|].
  rewrite imap_cons, !filter_cons.
  specialize (IH (f ∘ S) (λ i y Hy, Hf (S i) y Hy)).
  pose proof (Hf 0%nat x eq_refl) as Hhead.
  destruct (decide (P (f 0%nat x))), (decide (P x)); simpl;
    rewrite ?IH; tauto.
Qed.

Lemma filter_and_length {A : Type} (P Q : A → Prop)
    `{!∀ x, Decision (P x), !∀ x, Decision (Q x)} (l : list A) :
  (length (filter (λ x, P x ∧ Q x) l) ≤ length (filter P l))%nat.
Proof.
  induction l as [|x l IH]; [done|].
  rewrite !filter_cons.
  destruct (decide (P x ∧ Q x)) as [[HP HQ]|Hn], (decide (P x)); simpl;
    try lia; tauto.
Qed.

(** X1. With fewer than 2^31 Stacks in the working set, the status that
    [GenerateStackSetStatus] reports counts the Stacks not pending removal,
    and among them those with traffic and those ready; neither of the two
    exceeds the first, and the observed stack version is passed on. *)
Theorem GenerateStackSetStatus_counts (ssc : StackSetContainer) :
  let scs := StackContainers ssc in
  let status := GenerateStackSetStatus ssc in
  Z.of_nat (length scs) < 2 ^ 31 →
  Stacks status =
    Z.of_nat (length (filter (λ sc, PendingRemoval sc = false) scs))
  ∧ StacksWithTraffic status =
      Z.of_nat (length (filter (λ sc, PendingRemoval sc = false
                                      ∧ HasTraffic sc = true) scs))
  ∧ ReadyStacks status =
      Z.of_nat (length (filter (λ sc, PendingRemoval sc = false
                                      ∧ IsReady sc = true) scs))
  ∧ 0 ≤ StacksWithTraffic status ≤ Stacks status
  ∧ 0 ≤ ReadyStacks status ≤ Stacks status
  ∧ Stacks status ≤ Z.of_nat (length scs)
  ∧ ObservedStackVersion status =
      ObservedStackVersion (ss_Status (ssc_StackSet ssc)).
Proof.
  intros scs status Hlen. unfold status, GenerateStackSetStatus. fold scs.
  destruct (countStack_fold scs
    {| Stacks := 0; ReadyStacks := 0; StacksWithTraffic := 0;
       ObservedStackVersion :=
         ObservedStackVersion (ss_Status (ssc_StackSet ssc)) |})
    as (_ & -> & -> & -> & ->); [by repeat split|].
  cbn [Stacks StacksWithTraffic ReadyStacks ObservedStackVersion].
  rewrite !Z.add_0_l.
  pose proof (length_filter (λ sc, PendingRemoval sc = false) scs) as Hlive.
  pose proof (filter_and_length (λ sc, PendingRemoval sc = false)
                (λ sc, HasTraffic sc = true) scs) as Htraffic.
  pose proof (filter_and_length (λ sc, PendingRemoval sc = false)
                (λ sc, IsReady sc = true) scs) as Hready.
  cbv beta in Htraffic, Hready.
  change (2 ^ 31) with 2147483648 in Hlen.
  rewrite !int32_small by (change (2 ^ 31) with 2147483648; lia).
  repeat split; try done; lia.
Qed.

Section StatusAfterMarking.
Context `{!SortSliceContract}.

(** X2. Marking expired stacks does not change the number of Stacks with
    traffic that the status reports, whether the marking returns or panics,
    when no Stack without an ingress spec has traffic. *)
Theorem MarkExpiredStacks_keeps_the_traffic_count (ssc : StackSetContainer) :
  (∀ sc, sc ∈ StackContainers ssc →
     ingressSpec sc = None → HasTraffic sc = false) →
  StacksWithTraffic (GenerateStackSetStatus (MarkExpiredStacks ssc).2)
  = StacksWithTraffic (GenerateStackSetStatus ssc).
Proof.
  intros Hinv.
  destruct (MarkExpiredStacks_marks_candidates ssc) as (marked & -> & Hcand).
  unfold GenerateStackSetStatus. cbn [StackContainers ssc_StackSet].
  set (r0 := {| Stacks := 0; ReadyStacks := 0; StacksWithTraffic := 0;
                ObservedStackVersion :=
                  ObservedStackVersion (ss_Status (ssc_StackSet ssc)) |}).
  destruct (countStack_fold (markAll marked (StackContainers ssc)) r0)
    as (_ & _ & -> & _); [by repeat split|].
  destruct (countStack_fold (StackContainers ssc) r0)
    as (_ & _ & -> & _); [by repeat split|].
  do 3 f_equal. unfold markAll. apply filter_imap_length.
  intros i sc Hsc. case_bool_decide as Hmarked; [|done].
  destruct (Hcand i Hmarked) as (sc0 & Hsc0 & Hc).
  assert (sc0 = sc) as -> by congruence.
  assert (HasTraffic sc = false) as Hno.
  { apply gcCandidate_spec in Hc as [Hnil | Hdown].
    - apply Hinv; [by eapply list_elem_of_lookup_2 | done].
    - by apply ScaledDown_no_traffic. }
  change (HasTraffic (markPending sc)) with (HasTraffic sc).
  rewrite Hno. split; intros [_ ?]; done.
Qed.
End StatusAfterMarking.

Lemma filter_imap_seq_length {A : Type} (P : A → Prop) (Q : nat → Prop)
    `{!∀ x, Decision (P x), !∀ i, Decision (Q i)}
    (f : nat → A → A) (l : list A) (j : nat) :
  (∀ i x, l !! i = Some x → (P (f i x) ↔ Q (j + i)%nat)) →
  length (filter P (imap f l)) = length (filter Q (seq j (length l))).
Proof.
  revert f j. induction l as [|x l IH]; intros f j Hf; [done|].
  rewrite imap_cons. cbn [length seq]. rewrite !filter_cons.
  assert (IH' : length (filter P (imap (f ∘ S) l))
                = length (filter Q (seq (S j) (length l)))).
  { apply IH. intros i y Hy.
    replace (S j + i)%nat with (j + S i)%nat by lia. by apply Hf. }
  pose proof (Hf 0%nat x eq_refl) as Hhead. rewrite Nat.add_0_r in Hhead.
  destruct (decide (P (f 0%nat x))), (decide (Q j)); simpl;
    rewrite ?IH'; tauto.
Qed.

Lemma marked_count (marked : list nat) (n : nat) :
  NoDup marked → (∀ i, i ∈ marked → (i < n)%nat) →
  length (filter (λ i, i ∈ marked) (seq 0 n)) = length marked.
Proof.
  intros Hnd Hbound. apply Permutation_length, NoDup_Permutation.
  - apply NoDup_filter, NoDup_seq.
  - done.
  - intros i. rewrite list_elem_of_filter, elem_of_seq. split; [tauto|].
    intros Hi. split; [done|]. specialize (Hbound i Hi). lia.
Qed.

(** Marking through distinct pointers into a working set without flags
    leaves all but that many stacks unmarked. *)
Lemma markAll_live_count (marked : list nat) (scs : list StackContainer) :
  NoDup marked → (∀ i, i ∈ marked → (i < length scs)%nat) →
  (∀ sc, sc ∈ scs → PendingRemoval sc = false) →
  (length (filter (λ sc, PendingRemoval sc = false) (markAll marked scs))
   + length marked = length scs)%nat.
Proof.
  intros Hnd Hbound Hfresh.
  rewrite <- (markAll_length marked scs).
  rewrite <- (Permutation_length
    (filter_app_complement (λ sc, PendingRemoval sc = false)
       (markAll marked scs))).
  rewrite length_app. f_equal.
  rewrite <- (marked_count marked (length scs) Hnd Hbound).
  unfold markAll. symmetry. apply filter_imap_seq_length.
  intros i sc Hsc. simpl.
  assert (PendingRemoval sc = false) as Hsc0
    by (apply Hfresh; by eapply list_elem_of_lookup_2).
  case_bool_decide; simpl; [|rewrite Hsc0]; naive_solver.
Qed.

Section Marking.
Context `{!SortSliceContract}.

(** With a limit that is unset or not negative the run returns, having
    marked through distinct pointers, as many as the candidates exceed the
    limit. *)
Lemma MarkExpiredStacks_within_limit (ssc : StackSetContainer) :
  let scs := StackContainers ssc in
  let limit := default 10 (Limit (Lifecycle (ss_Spec (ssc_StackSet ssc)))) in
  let count :=
    Z.of_nat (length
      (filter (λ sc, ingressSpec sc = None ∨ ScaledDown sc = true) scs)) in
  0 ≤ limit →
  ∃ marked : list nat,
    MarkExpiredStacks ssc =
      (Returned, {| ssc_StackSet := ssc_StackSet ssc;
                    StackContainers := markAll marked scs |})
    ∧ NoDup marked
    ∧ Z.of_nat (length marked) = Z.max 0 (count - limit)
    ∧ ∀ i, i ∈ marked → (i < length scs)%nat.
Proof.
  intros scs limit count Hlimit.
  unfold MarkExpiredStacks. fold scs.
  replace (match Limit (Lifecycle (ss_Spec (ssc_StackSet ssc))) with
           | Some limit => limit
           | None => defaultStackLifecycleLimit
           end) with limit
    by (unfold limit; by destruct (Limit _)).
  rewrite gcCandidates_length. fold count.
  case_bool_decide as Hfew.
  { exists []. rewrite markAll_nil, Z.max_l by lia.
    split; [by destruct ssc|]. split; [apply NoDup_nil_2|].
    split; [done|]. intros i Hi. by apply not_elem_of_nil in Hi. }
  assert (Hcap : count ≤ Z.of_nat (length scs)).
  { unfold count. apply inj_le, length_filter. }
  rewrite !bool_decide_eq_true_2 by lia.
  set (sorted := sortSlice olderThan
                   (filter (λ p, gcCandidate p.2) (pointers scs))).
  assert (Hlen : Z.of_nat (length sorted) = count).
  { unfold sorted, count. by rewrite sortSlice_perm, gcCandidates_length. }
  eexists. split; [reflexivity|]. split; [|split].
  - rewrite fmap_take. apply (sublist_NoDup _ (sorted.*1)).
    + unfold sorted. rewrite sortSlice_perm. apply gcCandidates_NoDup.
    + apply sublist_take.
  - rewrite length_fmap, length_take_le by lia. lia.
  - intros i Hi. apply marked_are_candidates in Hi as (sc & Hsc & _).
    by eapply lookup_lt_Some.
Qed.

(** X3. However [MarkExpiredStacks] ends, it leaves the StackSet and the
    number of Stacks as they were, and each Stack either untouched or, if
    it has no ingress spec or is scaled down, with nothing but its
    PendingRemoval flag set. *)
Theorem MarkExpiredStacks_only_flags_candidates (ssc : StackSetContainer) :
  let after := (MarkExpiredStacks ssc).2 in
  ssc_StackSet after = ssc_StackSet ssc
  ∧ length (StackContainers after) = length (StackContainers ssc)
  ∧ ∀ i sc, StackContainers ssc !! i = Some sc →
      StackContainers after !! i = Some sc
      ∨ (StackContainers after !! i = Some (markPending sc)
         ∧ (ingressSpec sc = None ∨ ScaledDown sc = true)).
Proof.
  intros after. unfold after.
  destruct (MarkExpiredStacks_marks_candidates ssc) as (marked & -> & Hcand).
  cbn [ssc_StackSet StackContainers].
  split; [done|]. split; [apply markAll_length|].
  intros i sc Hsc. rewrite markAll_lookup, Hsc. simpl.
  case_bool_decide as Hmarked; [|by left].
  right. split; [done|].
  destruct (Hcand i Hmarked) as (sc0 & Hsc0 & Hc).
  assert (sc0 = sc) as -> by congruence. by apply gcCandidate_spec.
Qed.

(** X4. With a limit that is unset or not negative, and no Stack flagged
    beforehand, [MarkExpiredStacks] leaves unmarked all Stacks but the
    excess of the candidates over the limit: never fewer than the limit,
    or than all of them when they are fewer than the limit. *)
Theorem MarkExpiredStacks_retains_the_limit (ssc : StackSetContainer) :
  let scs := StackContainers ssc in
  let limit := default 10 (Limit (Lifecycle (ss_Spec (ssc_StackSet ssc)))) in
  let count :=
    Z.of_nat (length
      (filter (λ sc, ingressSpec sc = None ∨ ScaledDown sc = true) scs)) in
  let kept :=
    Z.of_nat (length
      (filter (λ sc, PendingRemoval sc = false)
         (StackContainers (MarkExpiredStacks ssc).2))) in
  0 ≤ limit →
  (∀ sc, sc ∈ scs → PendingRemoval sc = false) →
  kept = Z.of_nat (length scs) - Z.max 0 (count - limit)
  ∧ Z.min limit (Z.of_nat (length scs)) ≤ kept.
Proof.
  intros scs limit count kept Hlimit Hfresh.
  destruct (MarkExpiredStacks_within_limit ssc Hlimit)
    as (marked & Hrun & Hnd & Hlen & Hbound).
  fold scs count limit in Hrun, Hlen, Hbound.
  assert (Hkept : kept = Z.of_nat (length scs) - Z.of_nat (length marked)).
  { unfold kept. rewrite Hrun. cbn [snd StackContainers].
    pose proof (markAll_live_count marked scs Hnd Hbound Hfresh). lia. }
  assert (Hcap : count ≤ Z.of_nat (length scs)).
  { unfold count. apply inj_le, length_filter. }
  rewrite Hkept, Hlen. lia.
Qed.
End Marking.

(** ** More on the new-stack rule *)

Lemma sanitizePort_protocol (p : ServicePort) : sp_Protocol (sanitizePort p) ≠ "".
Proof. unfold sanitizePort. by destruct (decide (sp_Protocol p = "")). Qed.

Lemma sanitizePort_set (p : ServicePort) :
  sp_Protocol p ≠ "" → sanitizePort p = p.
Proof. intros Hp. unfold sanitizePort. by destruct (decide _). Qed.

Lemma sanitizeServicePorts_eq (service : StackServiceSpec) :
  sanitizeServicePorts service =
  {| svc_Meta := svc_Meta service;
     svc_Ports := sanitizePort <$> svc_Ports service |}.
Proof.
  rewrite <- sanitizeServicePorts_ports. by unfold sanitizeServicePorts.
Qed.

Lemma sanitizeServicePorts_idemp (service : StackServiceSpec) :
  sanitizeServicePorts (sanitizeServicePorts service)
  = sanitizeServicePorts service.
Proof.
  rewrite !sanitizeServicePorts_eq. simpl. f_equal.
  rewrite <- list_fmap_compose. apply list_fmap_ext.
  intros i p _. simpl. apply sanitizePort_set, sanitizePort_protocol.
Qed.

Lemma sanitizeServicePorts_set (service : StackServiceSpec) :
  (∀ p, p ∈ svc_Ports service → sp_Protocol p ≠ "") →
  sanitizeServicePorts service = service.
Proof.
  intros Hset. rewrite sanitizeServicePorts_eq. destruct service as [meta ports].
  simpl in *. f_equal. rewrite <- (list_fmap_id ports) at 2.
  apply list_fmap_ext. intros i p Hp. simpl.
  apply sanitizePort_set, Hset. by eapply list_elem_of_lookup_2.
Qed.

Lemma storeTemplateService_same (stackset : StackSet) :
  storeTemplateService stackset
    (Service (tpl_StackSpec (tpl_Spec (Template (ss_Spec stackset)))))
  = stackset.
Proof. by destruct stackset as [? ? ? [? ? [? [[] ?]]] ?]. Qed.

(** X5. [sanitizeServicePorts] keeps the metadata and the number of ports,
    and at every index the port it finds there: name, port, target port and
    node port as they were, the protocol TCP where there was none and as it
    was otherwise, so that a port with a protocol is left as it is. It
    leaves no port without a protocol, and changes nothing when applied
    again. *)
Theorem sanitizeServicePorts_settles (service : StackServiceSpec) :
  let sanitized := sanitizeServicePorts service in
  svc_Meta sanitized = svc_Meta service
  ∧ length (svc_Ports sanitized) = length (svc_Ports service)
  ∧ (∀ (i : nat) (p : ServicePort), svc_Ports service !! i = Some p →
       ∃ p', svc_Ports sanitized !! i = Some p'
         ∧ sp_Name p' = sp_Name p
         ∧ sp_Port p' = sp_Port p
         ∧ sp_TargetPort p' = sp_TargetPort p
         ∧ sp_NodePort p' = sp_NodePort p
         ∧ sp_Protocol p' =
             (if decide (sp_Protocol p = "") then "TCP" else sp_Protocol p)
         ∧ (sp_Protocol p ≠ "" → p' = p))
  ∧ (∀ p, p ∈ svc_Ports sanitized → sp_Protocol p ≠ "")
  ∧ sanitizeServicePorts sanitized = sanitized.
Proof.
  intros sanitized. unfold sanitized.
  split; [done|]. rewrite sanitizeServicePorts_ports.
  split; [apply length_fmap|]. split; [|split].
  - intros i p Hp. exists (sanitizePort p).
    rewrite list_lookup_fmap, Hp. split; [done|].
    unfold sanitizePort.
    destruct (decide (sp_Protocol p = "")); simpl; repeat split; done.
  - intros p (p0 & -> & _)%list_elem_of_fmap. apply sanitizePort_protocol.
  - apply sanitizeServicePorts_idemp.
Qed.

(** X6. [NewStack] changes nothing of the working set but the protocols of
    the template's service ports: the Stacks and every part of the StackSet
    other than the template's service block are as before; a service block
    is there after the call exactly if it was before, with the same
    metadata and, index by index, the same ports, whose protocol alone may
    differ, being TCP where a Stack is returned and the port had none. The
    whole working set is as before when no Stack is returned or when every
    port of the template already has a protocol. *)
Theorem NewStack_changes_only_port_protocols (ssc : StackSetContainer) :
  let before := ssc_StackSet ssc in
  let after := ssc_StackSet (NewStack ssc).2 in
  let tspec (stackset : StackSet) :=
    tpl_StackSpec (tpl_Spec (Template (ss_Spec stackset))) in
  StackContainers (NewStack ssc).2 = StackContainers ssc
  ∧ storeTemplateService after (Service (tspec before)) = before
  ∧ match Service (tspec before), Service (tspec after) with
    | None, None => True
    | Some svc, Some svc' =>
        svc_Meta svc' = svc_Meta svc
        ∧ length (svc_Ports svc') = length (svc_Ports svc)
        ∧ ∀ (i : nat) (p : ServicePort), svc_Ports svc !! i = Some p →
            ∃ p', svc_Ports svc' !! i = Some p'
              ∧ sp_Name p' = sp_Name p
              ∧ sp_Port p' = sp_Port p
              ∧ sp_TargetPort p' = sp_TargetPort p
              ∧ sp_NodePort p' = sp_NodePort p
              ∧ sp_Protocol p' =
                  match (NewStack ssc).1.1 with
                  | Some _ =>
                      if decide (sp_Protocol p = "") then "TCP"
                      else sp_Protocol p
                  | None => sp_Protocol p
                  end
    | _, _ => False
    end
  ∧ ((NewStack ssc).1.1 = None → (NewStack ssc).2 = ssc)
  ∧ ((∀ svc p, Service (tspec before) = Some svc → p ∈ svc_Ports svc →
        sp_Protocol p ≠ "") →
     (NewStack ssc).2 = ssc).
Proof.
  intros before after tspec. unfold after, NewStack. fold before.
  case_bool_decide as Hcond; cbn [fst snd ssc_StackSet StackContainers].
  - split; [done|].
    split.
    { etrans; [|apply (storeTemplateService_same before)]. reflexivity. }
    split.
    { unfold tspec.
      cbn [storeTemplateService ss_Spec Template tpl_Spec tpl_StackSpec
           Service].
      destruct (Service (tpl_StackSpec (tpl_Spec (Template (ss_Spec before)))))
        as [svc|]; [|done].
      split; [done|]. rewrite sanitizeServicePorts_ports.
      split; [apply length_fmap|].
      intros i p Hp. exists (sanitizePort p).
      rewrite list_lookup_fmap, Hp. split; [done|].
      unfold sanitizePort.
      destruct (decide (sp_Protocol p = "")); simpl; repeat split; done. }
    split; [done|]. intros Hset. destruct ssc as [stackset scs].
    simpl in *. f_equal. unfold before.
    etrans; [|apply (storeTemplateService_same stackset)]. f_equal.
    fold (tspec stackset).
    destruct (Service (tspec stackset)) as [svc|] eqn:Hsvc; [|done].
    f_equal. apply sanitizeServicePorts_set. intros p Hp.
    by apply (Hset svc).
  - split; [done|]. split; [apply storeTemplateService_same|].
    split; [|done]. fold before.
    destruct (Service (tspec before)) as [svc|]; [|done].
    split; [done|]. split; [done|]. intros i p Hp. exists p. done.
Qed.

(** X7. Calling [NewStack] again on the working set the first call left
    gives the same result and leaves that working set as it is. *)
Theorem NewStack_again (ssc : StackSetContainer) :
  NewStack (NewStack ssc).2 = ((NewStack ssc).1, (NewStack ssc).2).
Proof.
  destruct ssc as [stackset scs]. unfold NewStack at 2 3 4.
  cbn [ssc_StackSet StackContainers].
  case_bool_decide as Hcond; cbn [fst snd]; unfold NewStack;
    cbn [ssc_StackSet StackContainers].
  - assert (Hver : currentStackVersion (storeTemplateService stackset
        match Service (tpl_StackSpec (tpl_Spec (Template (ss_Spec stackset)))) with
        | Some svc => Some (sanitizeServicePorts svc)
        | None => None
        end) = currentStackVersion stackset) by done.
    rewrite Hver.
    change (generateStackName (storeTemplateService stackset ?s) ?v)
      with (generateStackName stackset v).
    change (stackByName {| ssc_StackSet := ?s; StackContainers := scs |} ?n)
      with (find (λ sc, String.eqb (scName sc) n) scs) in *.
    cbn [storeTemplateService ss_Status ss_Spec Template tpl_Spec tpl_StackSpec
         Service ss_Meta ss_APIVersion ss_Kind tpl_Meta Replicas StackHPA
         PodTemplate StackAutoscaler Ingress Lifecycle Version].
    rewrite bool_decide_eq_true_2 by done.
    destruct (Service (tpl_StackSpec (tpl_Spec (Template (ss_Spec stackset)))))
      as [svc|]; [|done].
    by rewrite sanitizeServicePorts_idemp.
  - by rewrite bool_decide_eq_false_2.
Qed.

(** ** More on the shared ingress *)

Lemma weightsOf_perm (w : StackContainer → float) (scs scs' : list StackContainer) :
  NoDup (scName <$> scs) → scs ≡ₚ scs' →
  weightsOf w ∅ scs = weightsOf w ∅ scs'.
Proof.
  intros Hnd Hperm.
  assert (Hnd' : NoDup (scName <$> scs')) by by rewrite <- Hperm.
  apply map_eq. intros name. apply option_eq. intros x. split.
  - intros (sc & Hin & <- & <- & Hpos)%weightsOf_lookup_Some.
    apply weightsOf_lookup_unique; [done| |done]. by rewrite <- Hperm.
  - intros (sc & Hin & <- & <- & Hpos)%weightsOf_lookup_Some.
    apply weightsOf_lookup_unique; [done| |done]. by rewrite Hperm.
Qed.

Section SharedIngressOrder.
Context `{!SortSliceContract}.

Lemma sorted_paths_perm ingress (scs scs' : list StackContainer) :
  scs ≡ₚ scs' →
  sortSlice byServiceName
    (pathTo ingress <$>
       filter (λ sc, positive (actualTrafficWeight sc) = true) scs)
  = sortSlice byServiceName
      (pathTo ingress <$>
         filter (λ sc, positive (actualTrafficWeight sc) = true) scs').
Proof.
  intros Hperm.
  apply (StronglySorted_unique_strong (λ a b, byServiceName b a = false)).
  - intros p1 p2 Hp1 Hp2 H12 H21.
    rewrite sortSlice_perm in Hp1, Hp2.
    apply list_elem_of_fmap in Hp1 as (sc1 & -> & _).
    apply list_elem_of_fmap in Hp2 as (sc2 & -> & _).
    unfold byServiceName in H12, H21. simpl in H12, H21.
    unfold pathTo. by rewrite (string_ltb_incomparable _ _ H21 H12).
  - apply (sortSlice_ordered _ byServiceName _ byServiceName_order).
  - apply (sortSlice_ordered _ byServiceName _ byServiceName_order).
  - by rewrite !sortSlice_perm, Hperm.
Qed.

(** X8. The shared ingress does not depend on the order in which the
    Stacks of the working set are visited, as long as their names are
    distinct: two working sets with the same StackSet and the same Stacks
    in any order give the same result, success or error. *)
Theorem GenerateStackSetIngress_order_independent (stackset : StackSet)
    (scs scs' : list StackContainer) :
  NoDup (scName <$> scs) → scs ≡ₚ scs' →
  GenerateStackSetIngress
    {| ssc_StackSet := stackset; StackContainers := scs |}
  = GenerateStackSetIngress
      {| ssc_StackSet := stackset; StackContainers := scs' |}.
Proof.
  intros Hnd Hperm. unfold GenerateStackSetIngress.
  cbn [ssc_StackSet StackContainers].
  destruct (Ingress (ss_Spec stackset)) as [ingress|]; [|done].
  rewrite !gather_paths, !gather_actualWeights, !gather_desiredWeights.
  cbn [gatheredPaths actualWeights desiredWeights app].
  rewrite (sorted_paths_perm ingress scs scs' Hperm).
  rewrite (weightsOf_perm actualTrafficWeight scs scs' Hnd Hperm).
  rewrite (weightsOf_perm desiredTrafficWeight scs scs' Hnd Hperm).
  rewrite !length_fmap.
  assert (length (filter (λ sc, positive (actualTrafficWeight sc) = true) scs)
          = length (filter (λ sc, positive (actualTrafficWeight sc) = true) scs'))
    as -> by (apply Permutation_length; by apply filter_Permutation).
  done.
Qed.
End SharedIngressOrder.

(** ** The per-stack ingress *)

Lemma stackRules_Ok (name : string) (paths : list HTTPIngressPath)
    (hosts : list string) (rules out : list IngressRule) :
  stackRules name paths hosts rules = Ok out →
  ∃ added,
    out = rules ++ added
    ∧ Forall2 (λ host rule,
        createSubdomain host name = Reply (Host rule) ∧ Paths rule = paths)
        hosts added.
Proof.
  revert rules. induction hosts as [|host hosts IH]; simpl; intros rules.
  { intros [= <-]. exists []. by rewrite app_nil_r. }
  destruct (createSubdomain host name) as [newHost|] eqn:Hhost; [|done].
  intros (added & -> & Hadded)%IH.
  exists ({| Host := newHost; Paths := paths |} :: added).
  split; [by rewrite <- app_assoc|]. by constructor.
Qed.

Lemma stackRules_accepted (name : string) (paths : list HTTPIngressPath)
    (hosts : list string) (rules : list IngressRule) :
  (∀ host, host ∈ hosts → ∃ newHost, createSubdomain host name = Reply newHost) →
  ∃ out, stackRules name paths hosts rules = Ok out.
Proof.
  revert rules. induction hosts as [|host hosts IH]; simpl; intros rules Hall.
  { eauto. }
  destruct (Hall host) as [newHost ->]; [apply list_elem_of_here|].
  apply IH. intros h Hh. apply Hall. by apply list_elem_of_further.
Qed.

Lemma stackRules_Err (name : string) (paths : list HTTPIngressPath)
    (hosts : list string) (rules : list IngressRule) (e : error) :
  stackRules name paths hosts rules = Err e →
  ∃ accepted host rest msg,
    hosts = accepted ++ host :: rest
    ∧ (∀ h, h ∈ accepted → ∃ newHost, createSubdomain h name = Reply newHost)
    ∧ createSubdomain host name = Refused msg
    ∧ e = errCollaborator msg.
Proof.
  revert rules. induction hosts as [|host hosts IH]; simpl; intros rules; [done|].
  destruct (createSubdomain host name) as [newHost|msg] eqn:Hhost.
  - intros (accepted & h & rest & msg & -> & Hacc & Href & ->)%IH.
    exists (host :: accepted), h, rest, msg. repeat split; try done.
    intros h' [->|Hin]%elem_of_cons; eauto.
  - intros [= <-]. exists [], host, hosts, msg. repeat split; try done.
    intros h Hh. by apply not_elem_of_nil in Hh.
Qed.

(** X9. For a Stack with an ingress spec the per-stack [GenerateIngress]
    never returns nothing. It succeeds when [createSubdomain] accepts every
    host, and then has one rule per host, in the order of the hosts, each
    with the rewritten host and the single path to the Stack's own service
    at the ingress's path and backend port, under the Stack's name and
    namespace. It fails exactly with the error of the first host that
    [createSubdomain] refuses. *)
Theorem GenerateStackIngress_rules (sc : StackContainer)
    (ingress : StackSetIngressSpec) :
  ingressSpec sc = Some ingress →
  GenerateStackIngress sc ≠ Ok None
  ∧ ((∀ host, host ∈ Hosts ingress →
        ∃ newHost, createSubdomain host (scName sc) = Reply newHost) →
     ∃ ing, GenerateStackIngress sc = Ok (Some ing))
  ∧ (∀ ing, GenerateStackIngress sc = Ok (Some ing) →
       Name (i_Meta ing) = scName sc
       ∧ Namespace (i_Meta ing) = scNamespace sc
       ∧ Forall2 (λ host rule,
           createSubdomain host (scName sc) = Reply (Host rule)
           ∧ Paths rule =
               [{| hp_Path := Path ingress;
                   hp_Backend :=
                     {| ServiceName := scName sc;
                        BackendServicePort := BackendPort ingress |} |}])
           (Hosts ingress) (i_Rules ing))
  ∧ (∀ e, GenerateStackIngress sc = Err e →
       ∃ accepted host rest msg,
         Hosts ingress = accepted ++ host :: rest
         ∧ (∀ h, h ∈ accepted →
              ∃ newHost, createSubdomain h (scName sc) = Reply newHost)
         ∧ createSubdomain host (scName sc) = Refused msg
         ∧ e = errCollaborator msg).
Proof.
  intros Hingress. unfold GenerateStackIngress. rewrite Hingress.
  set (path := {| hp_Path := Path ingress;
                  hp_Backend :=
                    {| ServiceName := scName sc;
                       BackendServicePort := BackendPort ingress |} |}).
  split; [|split; [|split]].
  - by destruct (stackRules _ _ _ _).
  - intros Hall.
    destruct (stackRules_accepted (scName sc) [path] (Hosts ingress) [] Hall)
      as [out ->]. eauto.
  - intros ing.
    destruct (stackRules _ _ _ _) as [out|] eqn:Hrules; [|done].
    intros [= <-]. cbn [i_Meta i_Rules Name Namespace resourceMeta].
    split; [done|]. split; [done|].
    by apply stackRules_Ok in Hrules as (added & -> & Hadded).
  - intros e.
    destruct (stackRules _ _ _ _) as [out|e'] eqn:Hrules; [done|].
    intros [= <-]. by apply stackRules_Err in Hrules.
Qed.

(** ** More on the generated resources *)

(** X10. [GenerateHPA] fails only when the Stack has an autoscaler spec
    whose metrics [convertCustomMetrics] refuses, and then with that error
    (a raw horizontalPodAutoscaler spec is not even looked at while an
    autoscaler spec is present). The autoscaler it produces scales the
    Deployment generated for the same Stack, carries that Deployment's
    name, namespace, labels and owner, and takes its maximum and its
    metrics from the spec it was built from. *)
Theorem GenerateHPA_targets_the_deployment (sc : StackContainer) :
  let spec := st_Spec (sc_Stack sc) in
  let deployment := GenerateDeployment sc in
  (∀ e, GenerateHPA sc = Err e ↔
     ∃ autoscaler msg,
       StackAutoscaler spec = Some autoscaler
       ∧ convertCustomMetrics (stacksetName sc) (scName sc)
           (as_Metrics autoscaler) = Refused msg
       ∧ e = errCollaborator msg)
  ∧ ∀ hpa, GenerateHPA sc = Ok (Some hpa) →
      h_ScaleTargetRef hpa =
        {| ref_APIVersion := "apps/v1"; ref_Kind := "Deployment";
           ref_Name := Name (d_Meta deployment) |}
      ∧ Name (h_Meta hpa) = Name (d_Meta deployment)
      ∧ Namespace (h_Meta hpa) = Namespace (d_Meta deployment)
      ∧ Labels (h_Meta hpa) = Labels (d_Meta deployment)
      ∧ OwnerReferences (h_Meta hpa) = OwnerReferences (d_Meta deployment)
      ∧ match StackAutoscaler spec, StackHPA spec with
        | Some autoscaler, _ =>
            h_MaxReplicas hpa = as_MaxReplicas autoscaler
            ∧ ∃ annotations,
                convertCustomMetrics (stacksetName sc) (scName sc)
                  (as_Metrics autoscaler) = Reply (h_Metrics hpa, annotations)
        | None, Some raw =>
            h_MaxReplicas hpa = hpa_MaxReplicas raw
            ∧ h_Metrics hpa = hpa_Metrics raw
            ∧ Annotations (h_Meta hpa) = Annotations (d_Meta deployment)
        | None, None => False
        end.
Proof.
  intros spec deployment. unfold GenerateHPA. fold spec.
  destruct (StackAutoscaler spec) as [autoscaler|].
  - destruct (convertCustomMetrics _ _ _) as [[metrics annotations]|msg] eqn:Hc.
    + split.
      * intros e. split; [done|].
        intros (a & m & [= <-] & Hm & _). congruence.
      * intros hpa [= <-]. repeat split; eauto.
    + split; [|done]. intros e. split.
      * intros [= <-]. by exists autoscaler, msg.
      * intros (a & m & [= <-] & Hm & ->). congruence.
  - destruct (StackHPA spec) as [raw|].
    + split.
      * intros e. split; [done|]. by intros (a & m & ? & _).
      * by intros hpa [= <-].
    + split; [|done]. intros e. split; [done|]. by intros (a & m & ? & _).
Qed.

(** X11. A replica count that [GenerateDeployment] writes always differs
    from the count the deployment is observed with; and once the
    deployment is observed with the count written, the next generation
    leaves the replicas unset. *)
Theorem GenerateDeployment_converges (sc : StackContainer) (replicas : Z) :
  d_Replicas (GenerateDeployment sc) = Some replicas →
  replicas ≠ deploymentReplicas sc
  ∧ d_Replicas (GenerateDeployment (observeDeployment replicas sc)) = None.
Proof.
  unfold GenerateDeployment. cbn [d_Replicas].
  change (ScaledDown (observeDeployment replicas sc)) with (ScaledDown sc).
  change (IsAutoscaled (observeDeployment replicas sc)) with (IsAutoscaled sc).
  cbn [observeDeployment prescalingActive prescalingReplicas stackReplicas
       deploymentReplicas].
  set (desired := if prescalingActive sc then prescalingReplicas sc
                  else stackReplicas sc).
  unfold wrapReplicas.
  destruct (bool_decide (desired ≠ 0) && negb (ScaledDown sc)) eqn:Hup.
  - apply andb_true_iff in Hup as [Hdesired%bool_decide_eq_true _].
    destruct (bool_decide (deploymentReplicas sc = 0)
              || negb (IsAutoscaled sc)
                 && bool_decide (desired ≠ deploymentReplicas sc)) eqn:Hwrite;
      [|done].
    intros [= <-]. split.
    + apply orb_true_iff in Hwrite
        as [Hz%bool_decide_eq_true | [_ Hne%bool_decide_eq_true]%andb_true_iff];
        [congruence | done].
    + rewrite (bool_decide_eq_false_2 (desired = 0)) by done.
      rewrite (bool_decide_eq_false_2 (desired ≠ desired)) by (by intros ?).
      by rewrite andb_false_r.
  - destruct (bool_decide (deploymentReplicas sc ≠ 0)) eqn:Hnz; [|done].
    apply bool_decide_eq_true in Hnz. intros [= <-]. split; [done|].
    rewrite (bool_decide_eq_false_2 (0 ≠ 0)); [done|]. by intros ?.
Qed.

(** X12. The metadata every per-stack resource starts from carries one
    annotation, the Stack's generation in decimal, so that two Stacks get
    the same annotations exactly when their generations agree; its labels
    are the Stack's labels and its one owner is the Stack. *)
Theorem resourceMeta_stamps_the_generation (sc sc' : StackContainer) :
  Annotations (resourceMeta sc) =
    Some {[ "stackset-controller.zalando.org/stack-generation" :=
              pretty (Generation (st_Meta (sc_Stack sc))) ]}
  ∧ (Annotations (resourceMeta sc) = Annotations (resourceMeta sc') ↔
     Generation (st_Meta (sc_Stack sc)) = Generation (st_Meta (sc_Stack sc')))
  ∧ Labels (resourceMeta sc) = Some (entries (Labels (st_Meta (sc_Stack sc))))
  ∧ OwnerReferences (resourceMeta sc) =
      [{| or_APIVersion := APIVersion; or_Kind := KindStack;
          or_Name := Name (st_Meta (sc_Stack sc));
          or_UID := UID (st_Meta (sc_Stack sc)) |}].
Proof.
  unfold resourceMeta. cbn [Annotations Labels OwnerReferences].
  split; [done|]. split; [|by rewrite mapCopy_id].
  split.
  - intros Hsame.
    apply (f_equal (λ m : gomap,
                      entries m !! stackGenerationAnnotationKey)) in Hsame.
    cbn [entries from_option id] in Hsame.
    rewrite !lookup_singleton_eq in Hsame. injection Hsame as Hsame.
    by apply (inj pretty) in Hsame.
  - by intros ->.
Qed.

Lemma synthesizedPort_usable (i j : nat) (port : ContainerPort) :
  sp_Name (synthesizedPort i j port) ≠ ""
  ∧ sp_Protocol (synthesizedPort i j port) ≠ "".
Proof.
  unfold synthesizedPort. simpl. split.
  - by destruct (decide (cp_Name port = "")).
  - by destruct (decide (cp_Protocol port = "")).
Qed.

(** X13. The Service generated for a Stack goes with its Deployment: it
    has the Deployment's metadata, is of type ClusterIP, and its selector
    is the Deployment's matchLabels, each of which is a label of the
    Stack under the key stackset or stack-version. *)
Theorem GenerateService_selects_the_deployment (sc : StackContainer)
    (svc : K8sService) :
  GenerateService sc = Ok (Some svc) →
  let deployment := GenerateDeployment sc in
  s_Meta svc = d_Meta deployment
  ∧ s_Type svc = "ClusterIP"
  ∧ s_Selector svc = d_MatchLabels deployment
  ∧ ∀ k v, s_Selector svc !! k = Some v →
      (k = "stackset" ∨ k = "stack-version")
      ∧ entries (Labels (st_Meta (sc_Stack sc))) !! k = Some v.
Proof.
  unfold GenerateService.
  destruct (getServicePorts _ _) as [ports|]; [|done].
  intros [= <-]. cbn [s_Meta s_Type s_Selector].
  split; [done|]. split; [done|]. split; [done|].
  intros k v Hv. rewrite limitLabels_lookup in Hv.
  case_bool_decide as Hk; [|done]. split; [|done].
  unfold selectorLabels, StacksetHeritageLabelKey, StackVersionLabelKey in Hk.
  set_solver.
Qed.

(** X14. The ports of a generated Service can be used as they are: with an
    ingress spec on the Stack there is at least one; and those synthesized
    from the containers (no service block, or one without ports) all have
    a name and a protocol, target their own port number and ask for no
    node port. *)
Theorem GenerateService_ports_are_usable (sc : StackContainer)
    (svc : K8sService) :
  GenerateService sc = Ok (Some svc) →
  let spec := st_Spec (sc_Stack sc) in
  (is_Some (ingressSpec sc) → s_Ports svc ≠ [])
  ∧ (Service spec = None
     ∨ (∃ block, Service spec = Some block ∧ svc_Ports block = []) →
     ∀ p, p ∈ s_Ports svc →
       sp_Name p ≠ "" ∧ sp_Protocol p ≠ ""
       ∧ sp_TargetPort p = FromInt (sp_Port p) ∧ sp_NodePort p = 0).
Proof.
  unfold GenerateService, getServicePorts.
  set (spec := st_Spec (sc_Stack sc)).
  set (ports :=
    match Service spec with
    | None => servicePortsFromContainers (pt_Containers (PodTemplate spec))
    | Some service =>
        if bool_decide (length (svc_Ports service) = 0%nat)
        then servicePortsFromContainers (pt_Containers (PodTemplate spec))
        else svc_Ports service
    end).
  intros Hsvc.
  assert (Hports : s_Ports svc = ports
                   ∧ (is_Some (ingressSpec sc) → ports ≠ [])).
  { destruct (ingressSpec sc) as [ingress|].
    - destruct (existsb _ ports) eqn:Hmatch; [|done].
      injection Hsvc as <-. split; [done|]. intros _ ->. done.
    - injection Hsvc as <-. split; [done|]. by intros [? ?]. }
  destruct Hports as [-> Hnonempty]. cbv zeta.
  split; [done|]. intros Habsent p Hp.
  assert (ports = servicePortsFromContainers (pt_Containers (PodTemplate spec)))
    as Hsynth.
  { unfold ports. by destruct Habsent as [-> | (block & -> & ->)]. }
  rewrite Hsynth in Hp.
  apply servicePortsFromContainers_elem
    in Hp as (i & j & container & port & _ & _ & ->).
  destruct (synthesizedPort_usable i j port). done.
Qed.

(** X15. The Stack that [NewStack] returns can be given its Service at
    once: [GenerateService] succeeds on it, and every port of that Service
    has a protocol. *)
Theorem NewStack_service_ports_have_protocols (ssc : StackSetContainer)
    (sc : StackContainer) (version : string) :
  (NewStack ssc).1 = (Some sc, version) →
  ∃ svc, GenerateService sc = Ok (Some svc)
         ∧ ∀ p, p ∈ s_Ports svc → sp_Protocol p ≠ "".
Proof.
  unfold NewStack. case_bool_decide; [|done].
  cbn [fst]. intros [= <- _].
  unfold GenerateService, getServicePorts.
  cbn [containerOf ingressSpec sc_Stack st_Spec Service PodTemplate].
  eexists. split; [reflexivity|]. cbn [s_Ports].
  set (tspec := tpl_StackSpec (tpl_Spec (Template (ss_Spec (ssc_StackSet ssc))))).
  assert (Hsynth : ∀ p,
    p ∈ servicePortsFromContainers (pt_Containers (PodTemplate tspec)) →
    sp_Protocol p ≠ "").
  { intros p (i & j & container & port & _ & _ & ->)%servicePortsFromContainers_elem.
    apply synthesizedPort_usable. }
  destruct (Service tspec) as [block|]; [|done].
  case_bool_decide; [done|].
  rewrite sanitizeServicePorts_ports.
  intros p (p0 & -> & _)%list_elem_of_fmap. apply sanitizePort_protocol.
Qed.

(** ** Marking and the other decisions *)

Lemma MarkExpiredStacks_shape (ssc : StackSetContainer) :
  ∃ marked : list nat,
    (MarkExpiredStacks ssc).2 =
      {| ssc_StackSet := ssc_StackSet ssc;
         StackContainers := markAll marked (StackContainers ssc) |}.
Proof.
  unfold MarkExpiredStacks.
  case_bool_decide; [exists []; rewrite markAll_nil; by destruct ssc|].
  case_bool_decide; [by eexists|].
  exists []. rewrite markAll_nil. by destruct ssc.
Qed.

Lemma foldl_imap_same {A B : Type} (f : B → A → B) (h : nat → A → A)
    (l : list A) (b : B) :
  (∀ i x b, f b (h i x) = f b x) → foldl f b (imap h l) = foldl f b l.
Proof.
  revert h b. induction l as [|x l IH]; intros h b Hh; [done|].
  rewrite imap_cons. simpl. rewrite Hh. apply IH. intros i y b'. apply Hh.
Qed.

Lemma find_imap_same {A : Type} (test : A → bool) (h : nat → A → A)
    (l : list A) :
  (∀ i x, test (h i x) = test x) →
  find test (imap h l) = None ↔ find test l = None.
Proof.
  revert h. induction l as [|x l IH]; intros h Hh; [done|].
  rewrite imap_cons. simpl. rewrite Hh.
  destruct (test x); [done|]. apply IH. intros i y. apply Hh.
Qed.

(** X16. Marking expired stacks has no bearing on the two other decisions
    taken from the working set: on the working set the marking leaves,
    however it ended, [NewStack] returns what it returns on the working
    set before the marking, and the shared [GenerateIngress] generates the
    same ingress or fails with the same error. *)
Theorem MarkExpiredStacks_leaves_the_other_decisions (ssc : StackSetContainer) :
  (NewStack (MarkExpiredStacks ssc).2).1 = (NewStack ssc).1
  ∧ GenerateStackSetIngress (MarkExpiredStacks ssc).2
    = GenerateStackSetIngress ssc.
Proof.
  destruct (MarkExpiredStacks_shape ssc) as [marked ->]. split.
  - unfold NewStack. cbn [ssc_StackSet StackContainers].
    rewrite (bool_decide_ext _
      (stackByName ssc
         (generateStackName (ssc_StackSet ssc)
            (currentStackVersion (ssc_StackSet ssc))) = None
       ∧ ObservedStackVersion (ss_Status (ssc_StackSet ssc))
         ≠ currentStackVersion (ssc_StackSet ssc))).
    + by case_bool_decide.
    + unfold stackByName, markAll. cbn [StackContainers].
      rewrite find_imap_same; [done|].
      intros i sc. by case_bool_decide.
  - unfold GenerateStackSetIngress. cbn [ssc_StackSet StackContainers].
    destruct (Ingress (ss_Spec (ssc_StackSet ssc))) as [ingress|]; [|done].
    unfold markAll. rewrite foldl_imap_same; [done|].
    intros i sc g. by case_bool_decide.
Qed.

(** ** Synthesized port names *)

Lemma pretty_N_char_dashFree (x : N) : pretty_N_char x ≠ dash.
Proof. unfold pretty_N_char. by repeat case_match. Qed.

Lemma pretty_N_go_dashFree (x : N) (s : string) :
  dashFree s → dashFree (pretty_N_go x s).
Proof.
  revert s. induction (N.lt_wf_0 x) as [x _ IH]; intros s Hs.
  destruct (decide (x = 0)%N) as [->|Hx]; [by rewrite pretty_N_go_0|].
  rewrite pretty_N_go_step by lia. apply IH.
  - apply N.div_lt; lia.
  - simpl. split; [apply pretty_N_char_dashFree | done].
Qed.

Lemma pretty_nat_dashFree (n : nat) : dashFree (pretty n).
Proof.
  unfold pretty, pretty_nat, pretty, pretty_N.
  destruct (decide _); [by simpl|]. by apply pretty_N_go_dashFree.
Qed.

Lemma dash_split (s1 s2 t1 t2 : string) :
  dashFree s1 → dashFree s2 →
  s1 +:+ String dash t1 = s2 +:+ String dash t2 → s1 = s2 ∧ t1 = t2.
Proof.
  revert s2. induction s1 as [|c1 s1 IH]; intros [|c2 s2]; simpl.
  - intros _ _ [= ->]. done.
  - intros _ [Hc _] [= <-]. done.
  - intros [Hc _] _ [= ->]. done.
  - intros [_ H1] [_ H2] [= -> Heq]. destruct (IH s2 H1 H2 Heq) as [-> ->]. done.
Qed.

Lemma synthesized_names_differ (i j i' j' : nat) (port port' : ContainerPort) :
  cp_Name port = "" → cp_Name port' = "" →
  sp_Name (synthesizedPort i j port) = sp_Name (synthesizedPort i' j' port') →
  i = i' ∧ j = j'.
Proof.
  intros Hp Hp'. unfold synthesizedPort. simpl. rewrite Hp, Hp'. simpl.
  intros [= Heq].
  apply (dash_split (pretty i) (pretty i') (pretty j) (pretty j')) in Heq
    as [Hi Hj]; try apply pretty_nat_dashFree.
  split; by apply (inj pretty).
Qed.

(** X17. When no container port of the pod template is named, the service
    ports synthesized from them all get different names. *)
Theorem servicePortsFromContainers_names_distinct (containers : list Container) :
  (∀ container port,
     container ∈ containers → port ∈ c_Ports container → cp_Name port = "") →
  NoDup (sp_Name <$> servicePortsFromContainers containers).
Proof.
  intros Hunnamed. apply NoDup_alt. intros a b name Ha Hb.
  apply list_lookup_fmap_Some in Ha as (pa & -> & Ha).
  apply list_lookup_fmap_Some in Hb as (pb & Hname & Hb).
  unfold servicePortsFromContainers in Ha, Hb.
  apply join_lookup_Some in Ha as (i & la & j & Hla & Hpa & ->).
  apply join_lookup_Some in Hb as (i' & lb & j' & Hlb & Hpb & ->).
  apply list_lookup_imap_Some in Hla as (ca & Hca & ->).
  apply list_lookup_imap_Some in Hlb as (cb & Hcb & ->).
  apply list_lookup_imap_Some in Hpa as (porta & Hporta & ->).
  apply list_lookup_imap_Some in Hpb as (portb & Hportb & ->).
  destruct (synthesized_names_differ i j i' j' porta portb) as [-> ->];
    [| |exact Hname|done].
  - apply (Hunnamed ca porta); eapply list_elem_of_lookup_2; eassumption.
  - apply (Hunnamed cb portb); eapply list_elem_of_lookup_2; eassumption.
Qed.

End Properties.

(** * Worked examples

    The properties above hold for every collaborator. The examples below
    run the code on the example objects with the collaborators chosen
    above. *)

Lemma insertInOrder_perm {A : Type} (less : A → A → bool) (x : A) (l : list A) :
  insertInOrder less x l ≡ₚ x :: l.
Proof.
  induction l as [|y l IH]; simpl; [done|].
  destruct (less x y); [done|].
  rewrite IH. apply Permutation_swap.
Qed.

Lemma insertionSort_perm (A : Type) (less : A → A → bool) (l : list A) :
  insertionSort A less l ≡ₚ l.
Proof.
  induction l as [|x l IH]; simpl; [done|].
  unfold insertionSort in *. simpl.
  by rewrite insertInOrder_perm, IH.
Qed.

Lemma insertInOrder_ordered {A : Type} (less : A → A → bool) (x : A)
    (l : list A) :
  StrictWeakOrder less → InOrder less l → InOrder less (insertInOrder less x l).
Proof.
  intros [Hirr Htrans Hinc]. unfold InOrder.
  induction 1 as [|y l Hl IH Hall]; simpl.
  { repeat constructor. }
  destruct (less x y) eqn:Hxy.
  - constructor; [by constructor|].
    assert (Hyx : less y x = false).
    { destruct (less y x) eqn:Hyx; [|done].
      by rewrite <- (Hirr x), (Htrans x y x Hxy Hyx). }
    constructor; [done|].
    rewrite Forall_forall in Hall. apply Forall_forall. intros z Hz.
    destruct (less z x) eqn:Hzx; [|done].
    by rewrite <- (Hall z Hz), (Htrans z x y Hzx Hxy).
  - constructor; [done|].
    rewrite insertInOrder_perm. by constructor.
Qed.

Lemma insertionSort_ordered (A : Type) (less : A → A → bool) (l : list A) :
  StrictWeakOrder less → InOrder less (insertionSort A less l).
Proof.
  intros Hless. induction l as [|x l IH]; [constructor|].
  by apply insertInOrder_ordered.
Qed.

Lemma referenceCollaborators_sort :
  @SortSliceContract referenceCollaborators.
Proof.
  split.
  - apply insertionSort_perm.
  - apply insertionSort_ordered.
Qed.

(** ** The new-stack rule, run *)

(** C1 at [freshFoo]: nothing is named foo-v1 and no version has been
    observed, so the Stack foo-v1 is emitted in the StackSet's namespace. *)
Lemma NewStack_fresh_stackset :
  ∃ sc, (NewStack (H := referenceCollaborators) freshFoo).1 = (Some sc, "v1")
        ∧ Name (st_Meta (sc_Stack sc)) = "foo-v1"
        ∧ Namespace (st_Meta (sc_Stack sc)) = "app".
Proof.
  destruct (NewStack_emits_exactly_the_unseen_version
              (H := referenceCollaborators) freshFoo) as [Hemit _].
  destruct Hemit as (sc & Hsc & Hname & Hns & _).
  { split.
    - intros sc Hin. inversion Hin.
    - vm_compute. discriminate. }
  exists sc. split; [exact Hsc|]. split; [exact Hname | exact Hns].
Defined.

(** C9. Clone-before-mutation does not hold of [NewStack]: the call on the
    fresh StackSet leaves the StackSet it read changed, the empty protocol
    of the template's service port overwritten with TCP in place.
    ([GenerateDeployment] injects labels into a copy of the pod template and
    so leaves its Stack alone.) *)
Lemma NewStack_writes_through_to_the_StackSet :
  let before := ssc_StackSet freshFoo in
  let after := ssc_StackSet (NewStack (H := referenceCollaborators) freshFoo).2 in
  let ports (stackset : StackSet) :=
    sp_Protocol <$>
      default [] (svc_Ports <$>
        Service (tpl_StackSpec (tpl_Spec (Template (ss_Spec stackset))))) in
  ports before = [""] ∧ ports after = ["TCP"] ∧ after ≠ before.
Proof.
  split; [reflexivity|]. split; [reflexivity|].
  intros Heq.
  apply (f_equal (λ stackset,
    sp_Protocol <$>
      default [] (svc_Ports <$>
        Service (tpl_StackSpec (tpl_Spec (Template (ss_Spec stackset)))))))
    in Heq.
  vm_compute in Heq. discriminate.
Qed.

(** ** The garbage-collection rule, run *)

(** With a limit of one, [crowdedFoo] loses its older candidate, foo-v2. *)
Example MarkExpiredStacks_crowded :
  PendingRemoval <$>
    StackContainers (MarkExpiredStacks (H := referenceCollaborators)
                       (crowdedFoo (Some 1))).2
  = [false; true; false].
Proof. vm_compute. reflexivity. Qed.

(** C2 at [crowdedFoo] with a limit of one: one stack is marked, and it is
    one of the two candidates. *)
Lemma MarkExpiredStacks_crowded_marks_one :
  ∃ marked : list nat,
    Z.of_nat (length marked) = 1
    ∧ ∀ i, i ∈ marked → (i < 2)%nat.
Proof.
  destruct (@MarkExpiredStacks_marks_the_oldest_excess
              referenceCollaborators referenceCollaborators_sort
              (crowdedFoo (Some 1)))
    as (marked & scs' & _ & _ & Hlen & Hcand & _).
  { simpl. lia. }
  exists marked. split; [exact Hlen|].
  intros i Hi. destruct (Hcand i Hi) as (sc & Hsc & Hc).
  destruct i as [|[|[|i]]]; [lia | lia | | discriminate Hsc].
  injection Hsc as <-. vm_compute in Hc. destruct Hc; discriminate.
Defined.

(** C2 without the bound on the limit: at [overdrawnFoo], limit -1 and one
    candidate, the call panics and the candidate is left unmarked. *)
Lemma MarkExpiredStacks_negative_limit_panics :
  let run := MarkExpiredStacks (H := referenceCollaborators) overdrawnFoo in
  Limit (Lifecycle (ss_Spec (ssc_StackSet overdrawnFoo))) = Some (-1)
  ∧ gcCandidate (H := referenceCollaborators) <$> StackContainers overdrawnFoo
    = [true]
  ∧ run = (Panicked, overdrawnFoo)
  ∧ PendingRemoval <$> StackContainers run.2 = [false]
  ∧ ¬ (∀ ssc : StackSetContainer,
         ∃ scs',
           MarkExpiredStacks (H := referenceCollaborators) ssc =
             (Returned, {| ssc_StackSet := ssc_StackSet ssc;
                           StackContainers := scs' |})).
Proof.
  repeat split; try (vm_compute; reflexivity).
  intros Hall. destruct (Hall overdrawnFoo) as [scs' Hret].
  vm_compute in Hret. discriminate.
Qed.

(** C7 at [crowdedFoo]: foo-v3, which serves all traffic, is left as it
    was. *)
Lemma MarkExpiredStacks_crowded_spares_v3 :
  ∃ sc', StackContainers (MarkExpiredStacks (H := referenceCollaborators)
                            (crowdedFoo (Some 1))).2 !! 2%nat = Some sc'
         ∧ HasTraffic sc' = true
         ∧ StackContainers (crowdedFoo (Some 1)) !! 2%nat = Some sc'.
Proof.
  eexists. split; [vm_compute; reflexivity|]. split; [vm_compute; reflexivity|].
  refine (proj1 (@MarkExpiredStacks_spares_stacks_with_traffic
                   referenceCollaborators referenceCollaborators_sort
                   (crowdedFoo (Some 1)) _ 2%nat _ _ _)).
  - intros sc Hin Hnil.
    repeat (apply elem_of_cons in Hin as [-> | Hin];
            [try reflexivity; discriminate Hnil|]).
    inversion Hin.
  - vm_compute. reflexivity.
  - vm_compute. reflexivity.
Defined.

(** ** The shared ingress, run *)

(** The shared ingress of [shiftingFoo] routes to foo-v1 alone; foo-v2 is
    named in the desired weights only. *)
Example GenerateStackSetIngress_shifting :
  match GenerateStackSetIngress (H := referenceCollaborators) shiftingFoo with
  | Ok (Some ing) =>
      (λ rule, (Host rule, (λ p, ServiceName (hp_Backend p)) <$> Paths rule))
        <$> i_Rules ing = [("foo.example.org", ["foo-v1"])]
      ∧ entries (Annotations (i_Meta ing)) !! "zalando.org/backend-weights"
        = Some "foo-v1;"
      ∧ entries (Annotations (i_Meta ing)) !! "zalando.org/stack-traffic-weights"
        = Some "foo-v2;"
  | _ => False
  end.
Proof. vm_compute. repeat split. Qed.



(** ** The replica planner, run *)

(** C4 at [idleStack]: scaled down with three replicas deployed, so the
    replica count is written as 0. *)
Lemma GenerateDeployment_scales_idle_stack_to_zero :
  d_Replicas (GenerateDeployment (H := referenceCollaborators) idleStack)
  = Some 0.
Proof.
  apply (GenerateDeployment_replicas_decision
           (H := referenceCollaborators) idleStack).
  - right. vm_compute. reflexivity.
  - vm_compute. discriminate.
Defined.

(** C6 at [prescaledStack]: the configured minimum of two is raised to the
    five replicas of the prescaling. *)
Lemma GenerateHPA_prescaled_minReplicas :
  ∃ hpa, GenerateHPA (H := referenceCollaborators) prescaledStack = Ok (Some hpa)
         ∧ h_MinReplicas hpa = Some 5.
Proof.
  destruct (GenerateHPA_minReplicas_clamp
              (H := referenceCollaborators) prescaledStack)
    as (Hclamp & _ & Hproduces).
  destruct (Hproduces
              {| as_MinReplicas := Some 2; as_MaxReplicas := 10;
                 as_Metrics := [] |} ([], None) eq_refl eq_refl)
    as [hpa Hhpa].
  exists hpa. split; [exact Hhpa|].
  destruct (Hclamp hpa Hhpa) as [Hactive _].
  destruct (Hactive eq_refl) as (_ & _ & Hraise & _).
  apply (Hraise 2); [reflexivity | vm_compute; reflexivity].
Defined.

(** ** The service, run *)

(** The service of [portlessService] gets the port synthesized from the
    container. *)
Example GenerateService_portless :
  match GenerateService (H := referenceCollaborators) portlessService with
  | Ok (Some svc) =>
      s_Ports svc =
        [{| sp_Name := "port-0-0"; sp_Protocol := "TCP"; sp_Port := 8080;
            sp_TargetPort := FromInt 8080; sp_NodePort := 0 |}]
  | _ => False
  end.
Proof. vm_compute. reflexivity. Qed.

(** C5 as first stated fails at [portlessService]: the service block is
    present, and the ports used are not the (empty) list it holds. *)
Lemma GenerateService_ignores_an_empty_service_block :
  ¬ (∀ (sc : StackContainer) block svc,
       IsAutoscaled sc = true →
       Service (st_Spec (sc_Stack sc)) = Some block →
       GenerateService (H := referenceCollaborators) sc = Ok (Some svc) →
       s_Ports svc = svc_Ports block).
Proof.
  intros Hall.
  destruct (GenerateService (H := referenceCollaborators) portlessService)
    as [[svc|]|] eqn:Hsvc; try (vm_compute in Hsvc; discriminate).
  specialize (Hall portlessService _ svc eq_refl eq_refl Hsvc).
  vm_compute in Hsvc. injection Hsvc as <-. discriminate.
Qed.

(** C5 at [namedBackend]: the synthesized port port-0-0 matches the named
    backend port, so the service is generated. *)
Lemma GenerateService_named_backend_matches :
  ∃ svc, GenerateService (H := referenceCollaborators) namedBackend
         = Ok (Some svc).
Proof.
  destruct (GenerateService_ports (H := referenceCollaborators) namedBackend)
    as (ports & _ & Hsynth & _ & Hmatch).
  cbn [ingressSpec namedBackend stackOf] in Hmatch.
  destruct Hmatch as [Hiff _]. apply Hiff.
  destruct Hsynth as [_ Hports].
  { right. eexists. split; reflexivity. }
  exists {| sp_Name := "port-0-0"; sp_Protocol := "TCP"; sp_Port := 8080;
            sp_TargetPort := FromInt 8080; sp_NodePort := 0 |}.
  split; [|reflexivity].
  apply Hports. exists 0%nat, 0%nat. do 2 eexists.
  repeat split; reflexivity.
Defined.

(** ** The deployment's labels, run *)

(** C8 as first stated fails: a pod template that sets the label stackset
    itself keeps its value, and the selector, which takes the Stack's
    value, is no longer among the template labels. *)
Lemma GenerateDeployment_selector_not_among_template_labels :
  ¬ (∀ sc : StackContainer,
       d_MatchLabels (GenerateDeployment (H := referenceCollaborators) sc)
       ⊆ entries (Labels (pt_Meta (d_Template
           (GenerateDeployment (H := referenceCollaborators) sc))))).
Proof.
  intros Hall.
  specialize (Hall (labelledStack (Some {[ "stackset" := "bar" ]}))).
  rewrite map_subseteq_spec in Hall.
  specialize (Hall "stackset" "foo").
  assert (Hbar :
    entries (Labels (pt_Meta (d_Template
      (GenerateDeployment (H := referenceCollaborators)
         (labelledStack (Some {[ "stackset" := "bar" ]})))))) !! "stackset"
    = Some "bar") by (vm_compute; reflexivity).
  rewrite Hbar in Hall.
  assert (Hfoo : Some "bar" = Some "foo"); [|discriminate Hfoo].
  apply Hall. vm_compute. reflexivity.
Qed.

(** C8 at a stack whose pod template sets only the label app: the selector
    labels are among the template labels. *)
Lemma GenerateDeployment_selector_among_template_labels :
  d_MatchLabels
    (GenerateDeployment (H := referenceCollaborators)
       (labelledStack (Some {[ "app" := "web" ]})))
  ⊆ entries (Labels (pt_Meta (d_Template
      (GenerateDeployment (H := referenceCollaborators)
         (labelledStack (Some {[ "app" := "web" ]})))))).
Proof.
  destruct (GenerateDeployment_selector_and_template_labels
              (H := referenceCollaborators)
              (labelledStack (Some {[ "app" := "web" ]})))
    as (Hsel & _ & _ & _ & _ & Hsubset).
  apply Hsubset. intros k [v Hk]. rewrite Hsel in Hk.
  case_bool_decide as Hkey; [|discriminate Hk].
  destruct Hkey as [-> | ->]; vm_compute; reflexivity.
Defined.

(** ** Absent spec sections, run *)

(** C10 at a stack without ingress or autoscaler, and at [freshFoo], whose
    StackSet has no ingress spec. *)
Lemma GenerateStackIngress_without_ingress :
  GenerateStackIngress (H := referenceCollaborators)
    (labelledStack None) = Ok None
  ∧ GenerateHPA (H := referenceCollaborators) (labelledStack None) = Ok None
  ∧ GenerateStackSetIngress (H := referenceCollaborators) freshFoo = Ok None.
Proof.
  destruct (generators_skip_absent_sections (H := referenceCollaborators))
    as (Hshared & _ & Hstack & Hhpa).
  split; [|split].
  - apply Hstack. reflexivity.
  - apply Hhpa; reflexivity.
  - apply Hshared. reflexivity.
Defined.

(** ** The status, run *)

(** X1 at [crowdedFoo]: three Stacks, all of them ready, one with traffic. *)
Lemma GenerateStackSetStatus_crowded_counts :
  Stacks (GenerateStackSetStatus (crowdedFoo (Some 1))) = 3
  ∧ StacksWithTraffic (GenerateStackSetStatus (crowdedFoo (Some 1))) = 1
  ∧ ReadyStacks (GenerateStackSetStatus (crowdedFoo (Some 1))) = 3.
Proof.
  destruct (GenerateStackSetStatus_counts (crowdedFoo (Some 1)))
    as (Hstacks & Htraffic & Hready & _); [vm_compute; reflexivity|].
  rewrite Hstacks, Htraffic, Hready. vm_compute. done.
Defined.

(** X2 at [crowdedFoo]: after the marking the status still reports one
    Stack with traffic. *)
Lemma MarkExpiredStacks_crowded_keeps_the_traffic_count :
  StacksWithTraffic
    (GenerateStackSetStatus
       (MarkExpiredStacks (H := referenceCollaborators) (crowdedFoo (Some 1))).2)
  = 1.
Proof.
  rewrite (@MarkExpiredStacks_keeps_the_traffic_count
             referenceCollaborators referenceCollaborators_sort
             (crowdedFoo (Some 1))).
  - vm_compute. reflexivity.
  - intros sc Hin Hnil.
    repeat (apply elem_of_cons in Hin as [-> | Hin];
            [try reflexivity; discriminate Hnil|]).
    inversion Hin.
Defined.

(** X3 at [crowdedFoo]: the marking leaves three Stacks under the same
    StackSet. *)
Lemma MarkExpiredStacks_crowded_keeps_the_stacks :
  ssc_StackSet (MarkExpiredStacks (H := referenceCollaborators)
                  (crowdedFoo (Some 1))).2
  = ssc_StackSet (crowdedFoo (Some 1))
  ∧ length (StackContainers
              (MarkExpiredStacks (H := referenceCollaborators)
                 (crowdedFoo (Some 1))).2) = 3%nat.
Proof.
  destruct (@MarkExpiredStacks_only_flags_candidates
              referenceCollaborators referenceCollaborators_sort
              (crowdedFoo (Some 1))) as (Hset & Hlen & _).
  split; [exact Hset | exact Hlen].
Defined.

(** X4 at [crowdedFoo]: two candidates under a limit of one, so two of the
    three Stacks stay unmarked. *)
Lemma MarkExpiredStacks_crowded_retains_two :
  Z.of_nat (length
    (filter (λ sc, PendingRemoval sc = false)
       (StackContainers
          (MarkExpiredStacks (H := referenceCollaborators)
             (crowdedFoo (Some 1))).2))) = 2.
Proof.
  destruct (@MarkExpiredStacks_retains_the_limit
              referenceCollaborators referenceCollaborators_sort
              (crowdedFoo (Some 1))) as [Hkept _].
  - simpl. lia.
  - intros sc Hin.
    repeat (apply elem_of_cons in Hin as [-> | Hin]; [reflexivity|]).
    inversion Hin.
  - rewrite Hkept. vm_compute. reflexivity.
Defined.

(** X8 at [shiftingFoo]: the shared ingress is the same with the two
    Stacks visited the other way round. *)
Lemma GenerateStackSetIngress_shifting_reversed :
  GenerateStackSetIngress (H := referenceCollaborators) shiftingFoo
  = GenerateStackSetIngress (H := referenceCollaborators)
      {| ssc_StackSet := ssc_StackSet shiftingFoo;
         StackContainers := reverse (StackContainers shiftingFoo) |}.
Proof.
  apply (@GenerateStackSetIngress_order_independent
           referenceCollaborators referenceCollaborators_sort
           (ssc_StackSet shiftingFoo) (StackContainers shiftingFoo)
           (reverse (StackContainers shiftingFoo))).
  - apply (bool_decide_unpack _). vm_compute. exact I.
  - apply Permutation_swap.
Defined.

(** X9 at [idleStack]: the one host is rewritten and the per-stack ingress
    is generated. *)
Lemma GenerateStackIngress_idle_stack :
  ∃ ing, GenerateStackIngress (H := referenceCollaborators) idleStack
         = Ok (Some ing).
Proof.
  destruct (GenerateStackIngress_rules (H := referenceCollaborators)
              idleStack (ingressOn (FromInt 80)))
    as (_ & Haccepted & _); [reflexivity|].
  apply Haccepted. intros host _. eexists. reflexivity.
Defined.

(** X11 at [idleStack]: the 0 written differs from the three replicas
    deployed, and once the deployment is observed with 0 replicas nothing
    more is written. *)
Lemma GenerateDeployment_idle_stack_converges :
  0 ≠ deploymentReplicas idleStack
  ∧ d_Replicas (GenerateDeployment (H := referenceCollaborators)
                  (observeDeployment 0 idleStack)) = None.
Proof.
  apply (GenerateDeployment_converges (H := referenceCollaborators)
           idleStack 0).
  vm_compute. reflexivity.
Defined.

(** X13 at [namedBackend]: its Service is of type ClusterIP and selects by
    the Deployment's matchLabels. *)
Lemma GenerateService_named_backend_selects :
  ∃ svc, GenerateService (H := referenceCollaborators) namedBackend
         = Ok (Some svc)
         ∧ s_Type svc = "ClusterIP"
         ∧ s_Selector svc =
             d_MatchLabels (GenerateDeployment (H := referenceCollaborators)
                              namedBackend).
Proof.
  eexists. split; [reflexivity|].
  destruct (GenerateService_selects_the_deployment
              (H := referenceCollaborators) namedBackend _ eq_refl)
    as (_ & Htype & Hselector & _).
  split; [exact Htype | exact Hselector].
Defined.

(** X14 at [namedBackend]: behind an ingress, its Service has a port. *)
Lemma GenerateService_named_backend_has_ports :
  ∃ svc, GenerateService (H := referenceCollaborators) namedBackend
         = Ok (Some svc)
         ∧ s_Ports svc ≠ [].
Proof.
  eexists. split; [reflexivity|].
  destruct (GenerateService_ports_are_usable
              (H := referenceCollaborators) namedBackend _ eq_refl)
    as [Hsome _].
  apply Hsome. eexists. reflexivity.
Defined.

(** X15 at [freshFoo]: the Stack foo-v1 that [NewStack] returns gets its
    Service, whose ports all have a protocol. *)
Lemma NewStack_fresh_stackset_service :
  ∃ sc svc,
    (NewStack (H := referenceCollaborators) freshFoo).1 = (Some sc, "v1")
    ∧ GenerateService (H := referenceCollaborators) sc = Ok (Some svc)
    ∧ ∀ p, p ∈ s_Ports svc → sp_Protocol p ≠ "".
Proof.
  eexists.
  destruct (NewStack_service_ports_have_protocols
              (H := referenceCollaborators) freshFoo _ "v1" eq_refl)
    as (svc & Hsvc & Hports).
  exists svc. split; [reflexivity|]. split; [exact Hsvc | exact Hports].
Defined.

(** X17 at [sidecarContainers]: the three synthesized names differ. *)
Lemma servicePortsFromContainers_sidecar_names :
  NoDup (sp_Name <$> servicePortsFromContainers sidecarContainers).
Proof.
  apply servicePortsFromContainers_names_distinct.
  intros container port Hcontainer Hport.
  repeat (apply elem_of_cons in Hcontainer as [-> | Hcontainer];
          [repeat (apply elem_of_cons in Hport as [-> | Hport];
                   [reflexivity|]);
           inversion Hport|]).
  inversion Hcontainer.
Defined.
